(** * Elevate-26: the spreadsheet-backed data layer

    A shallow embedding of [src/lib/speakersData.ts] and
    [src/lib/soldOutData.ts]: the two CSV line scanners, the logical-line
    pre-scan, the speaker record mapper, the five-minute [localStorage]
    cache and the two fetch entry points, followed by the properties the
    specification states about them.

    Conventions of the embedding.
    - A JavaScript string is the list of its code units.  The model keeps
      the code units below 256, so a character is an [ascii]; white space,
      case mapping and the regular expressions are the ECMAScript ones
      restricted to that range.
    - [localStorage], [fetch], [Date.now] and [typeof window] are inputs of
      the model.  Code that can throw lives in a state-and-exception monad
      in which a [throw] keeps the storage as it was at that point, as an
      exception does in JavaScript.  An [await] is the sequencing of that
      monad, and a rejected promise is a [throw].
    - [console.*] calls have no effect on any value and are left out.
    - Of [src/app/components/Speakers.tsx] the model keeps the state that
      decides what is shown: the image index of [SpeakerImage] and the
      loading, error and record state of [Speakers].  Markup, styles and
      animation are not modelled. *)

From Stdlib Require Import Ascii String.
From Stdlib Require Import List ZArith Lia Bool Arith PeanoNat.
Import ListNotations.

(** ** JavaScript strings *)

Module JS.

Definition str := list ascii.

(** String literals of the development. *)
Definition js (s : string) : str := list_ascii_of_string s.

Definition DQ : ascii := ascii_of_nat 34.   (* the double quote *)
Definition LF : ascii := ascii_of_nat 10.   (* \n *)
Definition CR : ascii := ascii_of_nat 13.   (* \r *)
Definition SP : ascii := ascii_of_nat 32.
Definition COMMA : ascii := ascii_of_nat 44.

(** A literal in which the apostrophe stands for the double quote. *)
Definition q (s : string) : str :=
  map (fun c => if Ascii.eqb c "'"%char then DQ else c) (js s).

(** ECMAScript WhiteSpace and LineTerminator code units below 256:
    TAB, LF, VT, FF, CR, SP and NBSP. *)
Definition isWhiteSpace (c : ascii) : bool :=
  let n := nat_of_ascii c in
  ((9 <=? n) && (n <=? 13)) || (n =? 32) || (n =? 160).

(** [s.trim()] *)
Fixpoint trimStart (s : str) : str :=
  match s with
  | [] => []
  | c :: r => if isWhiteSpace c then trimStart r else s
  end.

Definition trimEnd (s : str) : str := rev (trimStart (rev s)).

Definition trim (s : str) : str := trimEnd (trimStart s).

(** Truthiness of a string: [if (s)] holds for every string but the empty one. *)
Definition truthy (s : str) : bool :=
  match s with [] => false | _ :: _ => true end.

(** [s.startsWith(p)], [s.endsWith(p)], [s.includes(p)] *)
Fixpoint startsWith (s p : str) {struct p} : bool :=
  match p, s with
  | [], _ => true
  | _ :: _, [] => false
  | a :: p', b :: s' => Ascii.eqb a b && startsWith s' p'
  end.

Definition endsWith (s p : str) : bool := startsWith (rev s) (rev p).

Fixpoint includes (s p : str) : bool :=
  startsWith s p ||
  match s with
  | [] => false
  | _ :: r => includes r p
  end.

(** [s.slice(1, -1)]: the string without its first and its last code unit
    (empty when the string has fewer than two). *)
Definition slice_1_m1 (s : str) : str := removelast (tl s).

(** [s.split(sep)] for a one-character separator: always at least one piece. *)
Fixpoint split (sep : ascii) (s : str) : list str :=
  match s with
  | [] => [[]]
  | c :: r =>
      if Ascii.eqb c sep then [] :: split sep r
      else match split sep r with
           | h :: t => (c :: h) :: t
           | [] => [[c]]
           end
  end.

(** [s.replace(/xy/g, 'y')]-style rewriting of a two-character pattern by
    one character, leftmost first and without overlap. *)
Fixpoint replacePair (x y out : ascii) (s : str) : str :=
  match s with
  | [] => []
  | c :: r =>
      match r with
      | d :: r' =>
          if Ascii.eqb c x && Ascii.eqb d y then out :: replacePair x y out r'
          else c :: replacePair x y out r
      | [] => [c]
      end
  end.

(** [s.replace(/x/g, 'y')] *)
Definition replaceChar (x y : ascii) (s : str) : str :=
  map (fun c => if Ascii.eqb c x then y else c) s.

(** [s.replace(/\n+/g, ' ')]: every maximal run of line feeds becomes one
    space. [inRun] tells that the previous code unit was a line feed. *)
Fixpoint collapseLF (inRun : bool) (s : str) : str :=
  match s with
  | [] => []
  | c :: r =>
      if Ascii.eqb c LF then
        if inRun then collapseLF true r else SP :: collapseLF true r
      else c :: collapseLF false r
  end.

(** Case mapping.  [toLowerCase] stays below 256.  [toUpperCase] sends the
    sharp s to two letters; the micro sign and the y with diaeresis, whose
    capitals lie above 255, are left as they are. *)
Definition lowerChar (c : ascii) : ascii :=
  let n := nat_of_ascii c in
  if ((65 <=? n) && (n <=? 90))
     || ((192 <=? n) && (n <=? 222) && negb (n =? 215))
  then ascii_of_nat (n + 32) else c.

Definition toLowerCase (s : str) : str := map lowerChar s.

Definition upperChar (c : ascii) : str :=
  let n := nat_of_ascii c in
  if ((97 <=? n) && (n <=? 122))
     || ((224 <=? n) && (n <=? 254) && negb (n =? 247))
  then [ascii_of_nat (n - 32)]
  else if n =? 223 then js "SS"
  else [c].

Definition toUpperCase (s : str) : str := flat_map upperChar s.

(** [a === b] on strings *)
Definition streq (a b : str) : bool :=
  if list_eq_dec ascii_dec a b then true else false.

(** The character class [[a-zA-Z0-9_-]] of the Drive patterns. *)
Definition isIdChar (c : ascii) : bool :=
  let n := nat_of_ascii c in
  ((97 <=? n) && (n <=? 122)) || ((65 <=? n) && (n <=? 90))
  || ((48 <=? n) && (n <=? 57)) || (n =? 95) || (n =? 45).

(** Longest prefix of [s] made of characters of the class. *)
Fixpoint takeId (s : str) : str :=
  match s with
  | c :: r => if isIdChar c then c :: takeId r else []
  | [] => []
  end.

(** [s.match(/lit([a-zA-Z0-9_-]+)/)]: the first group of the leftmost
    match, [None] when the pattern does not occur.  The group is greedy,
    so it is the whole run of class characters after the literal. *)
Fixpoint matchLitId (lit s : str) : option str :=
  let here :=
    if startsWith s lit
    then match takeId (skipn (length lit) s) with
         | [] => None
         | g => Some g
         end
    else None in
  match here with
  | Some g => Some g
  | None => match s with
            | [] => None
            | _ :: r => matchLitId lit r
            end
  end.

(** [s.match(/[-\w]{25,}/)]: the leftmost run of at least 25 characters of
    the class, taken to its end; [None] when there is none.  The class is
    the one of the Drive patterns. *)
Fixpoint matchLongId (s : str) : option str :=
  let run := takeId s in
  if 25 <=? length run then Some run
  else match s with
       | [] => None
       | _ :: r => matchLongId r
       end.

End JS.

Import JS.

(** ** The browser: storage, network and exceptions *)

Module Effects.

Inductive exn :=
| AbortError            (* the 10 s timer aborted the request *)
| NetworkError          (* [fetch] rejected for another reason *)
| HttpError (status : Z)
| BodyError             (* [response.text()] rejected *)
| StorageError          (* a [localStorage] access threw *)
| SyntaxError.          (* [JSON.parse] threw *)

Inductive result (A : Type) :=
| Ok (a : A)
| Throw (e : exn).
Arguments Ok {A} a.
Arguments Throw {A} e.

(** What the page can observe of its environment besides the stored text:
    whether [window] exists, and which [localStorage] accesses throw. *)
Record Env := mkEnv {
  windowDefined : bool;
  getItemThrows : bool;
  setItemThrows : bool;
  removeItemThrows : bool
}.

Record Response := mkResponse {
  ok : bool;
  status : Z;
  text : result str       (* what [await response.text()] gives *)
}.

Inductive FetchOutcome :=
| Rejects (e : exn)
| Resolves (r : Response).

Section Monad.

(** [Item] is the type of the texts kept in storage. *)
Variable Item : Type.

(** The mutable world: the text under the cache key, if any, and the
    number of [fetch] calls made so far. *)
Record World := mkWorld {
  slot : option Item;
  fetches : nat
}.

Definition M (A : Type) : Type := World -> result A * World.

Definition ret {A} (a : A) : M A := fun w => (Ok a, w).

Definition throw {A} (e : exn) : M A := fun w => (Throw e, w).

Definition bind {A B} (m : M A) (k : A -> M B) : M B :=
  fun w =>
    match m w with
    | (Ok a, w') => k a w'
    | (Throw e, w') => (Throw e, w')
    end.

(** [try { body } catch (e) { handler e }] *)
Definition tryCatch {A} (body : M A) (handler : exn -> M A) : M A :=
  fun w =>
    match body w with
    | (Ok a, w') => (Ok a, w')
    | (Throw e, w') => handler e w'
    end.

(** [localStorage.getItem(KEY)], [.setItem(KEY, v)], [.removeItem(KEY)] *)
Definition getItem (env : Env) : M (option Item) :=
  fun w => if getItemThrows env then (Throw StorageError, w) else (Ok (slot w), w).

Definition setItem (env : Env) (v : Item) : M unit :=
  fun w =>
    if setItemThrows env then (Throw StorageError, w)
    else (Ok tt, mkWorld (Some v) (fetches w)).

Definition removeItem (env : Env) : M unit :=
  fun w =>
    if removeItemThrows env then (Throw StorageError, w)
    else (Ok tt, mkWorld None (fetches w)).

(** [await fetch(url, ...)], the outcome being given. *)
Definition fetch (o : FetchOutcome) : M Response :=
  fun w =>
    (match o with Rejects e => Throw e | Resolves r => Ok r end,
     mkWorld (slot w) (S (fetches w))).

(** [await response.text()] *)
Definition readText (r : Response) : M str :=
  fun w => (text r, w).

End Monad.

Arguments ret {Item A} a.
Arguments throw {Item A} e.
Arguments bind {Item A B} m k.
Arguments tryCatch {Item A} body handler.
Arguments fetch {Item} o.
Arguments readText {Item} r.
Arguments mkWorld {Item} slot fetches.
Arguments slot {Item} w.
Arguments fetches {Item} w.
Arguments getItem {Item} env.
Arguments setItem {Item} env v.
Arguments removeItem {Item} env.

Declare Scope js_monad_scope.
Delimit Scope js_monad_scope with jsm.
Notation "x <- m ;; k" := (bind m (fun x => k))
  (at level 61, m at next level, right associativity) : js_monad_scope.
Notation "m ;; k" := (bind m (fun _ => k))
  (at level 61, right associativity) : js_monad_scope.

End Effects.

Import Effects.
Local Open Scope js_monad_scope.

(** ** src/lib/speakersData.ts *)

Module Speakers.

Record Speaker := mkSpeaker {
  name : str;
  title : str;
  company : str;
  image : str;
  linkedin : option str      (* [linkedin?: string] *)
}.

(** The [while] loop of [parseCSVLine] (lines 25-52): [line] is what is
    left to read from index [i] on, [result], [current] and [inQuotes] are
    the loop's variables.  It yields [result] and [current] as they are when
    the loop ends, by exhaustion or by the [break]. *)
Fixpoint scanLine (line : str) (result : list str) (current : str)
    (inQuotes : bool) : list str * str :=
  match line with
  | [] => (result, current)
  | char :: rest =>
      if Ascii.eqb char DQ then
        match rest with
        | next :: rest' =>
            if inQuotes && Ascii.eqb next DQ
            then scanLine rest' result (current ++ [DQ]) inQuotes
            else scanLine rest result current (negb inQuotes)
        | [] => scanLine rest result current (negb inQuotes)
        end
      else if Ascii.eqb char COMMA && negb inQuotes then
        scanLine rest (result ++ [trim current]) [] inQuotes
      else if Ascii.eqb char CR && negb inQuotes then
        scanLine rest result current inQuotes
      else if Ascii.eqb char LF && negb inQuotes then
        (result, current)
      else
        scanLine rest result (current ++ [char]) inQuotes
  end.

(** The clean-up applied to every field (lines 58-68). *)
Definition cleanField (field : str) : str :=
  let field := trim field in
  let field :=
    if startsWith field [DQ] && endsWith field [DQ]
    then replacePair DQ DQ DQ (slice_1_m1 field)
    else field in
  trim (collapseLF false (replaceChar CR LF (replacePair CR LF LF field))).

Definition parseCSVLine (line : str) : list str :=
  let '(result, current) := scanLine line [] [] false in
  let result := result ++ [trim current] in
  map cleanField result.

Definition quoteCount (s : str) : nat :=
  length (filter (fun c => Ascii.eqb c DQ) s).

(** One turn of the [for] loop of [parseCSVData] (lines 77-92) on the
    pair ([lines], [currentLine]). *)
Definition accumulate (st : list str * str) (line : str) : list str * str :=
  let '(lines, currentLine) := st in
  let currentLine :=
    currentLine ++ (if truthy currentLine then [LF] else []) ++ line in
  if Nat.even (quoteCount currentLine)
  then (lines ++ [currentLine], [])
  else (lines, currentLine).

Definition logicalLines (csvText : str) : list str :=
  let rawLines := split LF csvText in
  let '(lines, currentLine) := fold_left accumulate rawLines ([], []) in
  if truthy (trim currentLine) then lines ++ [currentLine] else lines.

Definition parseCSVData (csvText : str) : list (list str) :=
  map parseCSVLine (logicalLines csvText).


Definition CACHE_DURATION : Z := 5 * 60 * 1000.

Record CachedSpeakerData := mkCached {
  data : list Speaker;
  timestamp : Z
}.

(** The text under [CACHE_KEY].  [JSON.parse] inverts [JSON.stringify] on
    a [CachedSpeakerData] (strings, a number, and an optional field that is
    left out when undefined), so the JSON text of an entry is represented
    by the entry; [Malformed] is a text that [JSON.parse] rejects.  The
    empty text, which the code treats like a missing key, is the missing
    key of the model. *)
Inductive Item :=
| Json (c : CachedSpeakerData)
| Malformed.

Definition JSON_stringify (c : CachedSpeakerData) : Item := Json c.

Definition JSON_parse (i : Item) : M Item CachedSpeakerData :=
  match i with
  | Json c => ret c
  | Malformed => throw SyntaxError
  end.

(** [getCachedData] (lines 112-137); [now] is the value of [Date.now()]. *)
Definition getCachedData (env : Env) (now : Z) : M Item (option (list Speaker)) :=
  if negb (windowDefined env) then ret None
  else
    tryCatch
      (cached <- getItem env ;;
       match cached with
       | None => ret None
       | Some cached =>
           parsedCache <- JSON_parse cached ;;
           if (now - timestamp parsedCache <? CACHE_DURATION)%Z
           then ret (Some (data parsedCache))
           else removeItem env ;; ret None
       end)
      (fun error =>
         tryCatch (removeItem env) (fun e => ret tt) ;;
         ret None).

(** [setCachedData] (lines 140-152) *)
Definition setCachedData (env : Env) (now : Z) (data : list Speaker) : M Item unit :=
  if negb (windowDefined env) then ret tt
  else
    tryCatch
      (let cacheData := mkCached data now in
       setItem env (JSON_stringify cacheData))
      (fun error => ret tt).

Inductive Format := uc | thumbnail | proxy.

(** [convertGoogleDriveUrl] (lines 155-207) *)
Definition convertGoogleDriveUrl (url : str) (format : Format) : str :=
  if negb (truthy url) || negb (includes url (js "drive.google.com")) then url
  else
    let fileId : str := [] in
    (* Pattern 1: /file/d/FILE_ID/view *)
    let fileId :=
      match matchLitId (js "/file/d/") url with
      | Some g => g
      | None => fileId
      end in
    (* Pattern 2: id=FILE_ID *)
    let fileId :=
      if negb (truthy fileId) then
        match matchLitId (js "id=") url with
        | Some g => g
        | None => fileId
        end
      else fileId in
    (* Pattern 3: /open?id=FILE_ID *)
    let fileId :=
      if negb (truthy fileId) then
        match matchLitId (js "/open?id=") url with
        | Some g => g
        | None => fileId
        end
      else fileId in
    if negb (truthy fileId) then url
    else
      match format with
      | uc => js "https://drive.google.com/uc?export=view&id=" ++ fileId
      | thumbnail =>
          js "https://drive.google.com/thumbnail?id=" ++ fileId ++ js "&sz=w1000"
      | proxy => js "https://lh3.googleusercontent.com/d/" ++ fileId
      end.

Definition fallbackSpeakers : list Speaker :=
  [ mkSpeaker (js "Seeram Sambasiva Rao IAS")
      (js "Special Secretary (E & ITD) / Chairman,")
      (js "Kerala State IT Mission") (js "/speakers/speaker_1.jpg") None;
    mkSpeaker (js "Dr.Jayasankar Prasad C") (js "Director,") (js "CMD")
      (js "/speakers/speaker_15.jpg")
      (Some (js "https://www.linkedin.com/in/jayasankar-prasad-c-b5459bb"));
    mkSpeaker (js "Anoop Ambika") (js "CEO,") (js "Kerala Start-up Mission")
      (js "/speakers/speaker_2.jpg")
      (Some (js "https://www.linkedin.com/in/anoopambika"));
    mkSpeaker (js "Sreekumar V") (js "Secretary, GTech & Centre Head,")
      (js "Tata Elxsi") (js "/speakers/speaker_3.jpg")
      (Some (js "https://www.linkedin.com/in/sreekumarv"));
    mkSpeaker (js "Col. Sanjeev Nair (Retd.)") (js "CEO,") (js "Technopark")
      (js "/speakers/speaker_4.jpg")
      (Some (js "https://www.linkedin.com/in/sanjeevnair13"));
    mkSpeaker (js "Deepu S Nath") (js "Managing Director,") (js "Faya")
      (js "/speakers/speaker_5.jpg")
      (Some (js "https://www.linkedin.com/in/deepusnath"));
    mkSpeaker (js "Raj Gopal R") (js "Deputy Vice President & Regional Head,")
      (js "Federal Bank") (js "/speakers/speaker_16.jpg") None;
    mkSpeaker (js "Nisha Gopinath") (js "Vice President and Head of HR,")
      (js "IBM India and South Asia") (js "/speakers/speaker_6.jpg")
      (Some (js "https://www.linkedin.com/in/nisha-gopinath-4087651"));
    mkSpeaker (js "Charles Godwin") (js "HR Leader,") (js "Zoho Corporation")
      (js "/speakers/speaker_7.jpg")
      (Some (js "https://www.linkedin.com/in/charlesgodwin"));
    mkSpeaker (js "Magical Rafi") (js "Founder & Chief Mentor,")
      (js "Magic of Change") (js "/speakers/speaker_8.jpg")
      (Some (js "https://www.linkedin.com/in/mohammedrafinlptrainer"));
    mkSpeaker (js "Saurabh Singh") (js "Consulting and Capability,")
      (js "SHRM India") (js "/speakers/speaker_9.jpg")
      (Some (js "https://www.linkedin.com/in/learnsingh"));
    mkSpeaker (js "Karthika Nair S") (js "Associate Director") (js "")
      (js "/speakers/speaker_13.jpg") None;
    mkSpeaker (js "Jayan Nair") (js "Chief People Officer,") (js "IBS Software")
      (js "/speakers/speaker_10.jpg")
      (Some (js "https://www.linkedin.com/in/jayan-nair-0b11874"));
    mkSpeaker (js "Manoj Elanjickal") (js "Director - People & Culture,")
      (js "H&R Block India") (js "/speakers/speaker_11.jpg")
      (Some (js "https://www.linkedin.com/in/manojelanjickal"));
    mkSpeaker (js "Varun Palat") (js "Deputy Vice President - HR,")
      (js "Federal Bank") (js "/speakers/speaker_12.jpg")
      (Some (js "https://www.linkedin.com/in/varun-palat-18312912b"));
    mkSpeaker (js "Aditi Radhakrishnan") (js "Consultant & Coach,")
      (js "Mitara Consulting Services") (js "/speakers/speaker_14.jpg")
      (Some (js "https://www.linkedin.com/in/aditiradhakrishnan"));
    mkSpeaker (js "Dr. Thomas George K ") (js "Director,")
      (js "LEAD College (Autonomous)") (js "/speakers/speaker_17.jpg")
      (Some (js "https://www.linkedin.com/in/thomasgeorgek")) ].

(** [while (row.length < 5) row.push('')] *)
Definition padRow (row : list str) : list str :=
  row ++ repeat [] (5 - length row).

(** The arrow function mapped over the data rows (lines 439-478): [None]
    is its [null].  Nothing in its [try] block can throw, so the [catch]
    branch has no counterpart here. *)
Definition mapRow (row : list str) : option Speaker :=
  if length row <? 4 then None
  else
    let row := padRow row in
    let name := trim (nth 0 row []) in
    let title := trim (nth 1 row []) in
    let company := trim (nth 2 row []) in
    let image := trim (nth 3 row []) in
    let linkedin := trim (nth 4 row []) in
    if negb (truthy name) || negb (truthy title) || negb (truthy image)
    then None
    else
      Some (mkSpeaker name title
              company                       (* company || '' *)
              (if includes image (js "drive.google.com")
               then convertGoogleDriveUrl image uc else image)
              (if truthy linkedin then Some linkedin else None)).

(** [.filter(Boolean)] on an array of records and nulls *)
Fixpoint filterBoolean {A} (l : list (option A)) : list A :=
  match l with
  | [] => []
  | Some a :: r => a :: filterBoolean r
  | None :: r => filterBoolean r
  end.

(** The two [fetch] outcomes a call may consume, and the two readings of
    [Date.now()]: at the cache check and when the result is stored. *)
Record Network := mkNetwork {
  primary : FetchOutcome;
  secondary : FetchOutcome
}.

Record Clock := mkClock {
  nowCheck : Z;
  nowStore : Z
}.

(** The [try] block of [fetchSpeakersFromGoogleSheets] (lines 388-487),
    in its two halves.  First the request, the retry on a response that is
    not ok, and the reading of the body (lines 389-422). *)
Definition fetchCsvText (net : Network) : M Item str :=
  response <- fetch (primary net) ;;
  response <- (if negb (ok response) then fetch (secondary net)
               else ret response) ;;
  if negb (ok response) then throw (HttpError (status response))
  else readText response.

(** Then parsing, mapping and caching (lines 424-487). *)
Definition recordsOfCsv (env : Env) (clock : Clock) (csvText : str)
    : M Item (list Speaker) :=
  if negb (truthy (trim csvText)) then ret fallbackSpeakers
  else
    let parsedRows := parseCSVData csvText in
    if length parsedRows <=? 1 then ret fallbackSpeakers
    else
      let speakers := filterBoolean (map mapRow (tl parsedRows)) in
      if length speakers =? 0 then ret fallbackSpeakers
      else
        setCachedData env (nowStore clock) speakers ;;
        ret speakers.

Definition liveFetch (env : Env) (clock : Clock) (net : Network)
    : M Item (list Speaker) :=
  csvText <- fetchCsvText net ;;
  recordsOfCsv env clock csvText.

(** Its [catch] block (lines 488-507). *)
Definition onFailure (env : Env) (error : exn) : M Item (list Speaker) :=
  stale <- tryCatch
             (cached <- getItem env ;;
              match cached with
              | Some cached =>
                  parsedCache <- JSON_parse cached ;;
                  ret (Some (data parsedCache))
              | None => ret None
              end)
             (fun e => ret None) ;;
  match stale with
  | Some d => ret d
  | None => ret fallbackSpeakers
  end.

(** The cache check at its entry (lines 371-386): [Some] cached records
    end the call, [None] lets it go on to the network. *)
Definition cacheCheck (env : Env) (forceRefresh : bool) (clock : Clock)
    : M Item (option (list Speaker)) :=
  if negb forceRefresh then getCachedData env (nowCheck clock)
  else
    (if windowDefined env
     then tryCatch (removeItem env) (fun e => ret tt)
     else ret tt) ;;
    ret None.

(** [fetchSpeakersFromGoogleSheets] (lines 250-508) *)
Definition fetchSpeakersFromGoogleSheets (env : Env) (forceRefresh : bool)
    (clock : Clock) (net : Network) : M Item (list Speaker) :=
  cachedData <- cacheCheck env forceRefresh clock ;;
  match cachedData with
  | Some cachedData => ret cachedData
  | None => tryCatch (liveFetch env clock net) (onFailure env)
  end.

(** [getFallbackSpeakerImage] (lines 230-232) *)
Definition getFallbackSpeakerImage : str :=
  js "https://via.placeholder.com/400x400/1f2937/ffffff?text=SPEAKER".

(** [getSpeakerImageUrls] (lines 210-227) *)
Definition getSpeakerImageUrls (url : str) : list str :=
  if negb (truthy url) then [getFallbackSpeakerImage]
  else if includes url (js "drive.google.com") then
    match matchLongId url with
    | None => [getFallbackSpeakerImage]
    | Some fileId =>
        [ js "https://drive.google.com/thumbnail?id=" ++ fileId ++ js "&sz=w1000";
          js "https://lh3.googleusercontent.com/d/" ++ fileId;
          js "https://drive.google.com/uc?export=view&id=" ++ fileId ]
    end
  else [url].

(** [getSpeakerCacheTimestamp] (lines 235-247).  The text that
    [new Date(t).toLocaleTimeString()] gives depends on the locale and the
    time zone of the browser: it is the parameter [toLocaleTimeString]. *)
Definition getSpeakerCacheTimestamp (toLocaleTimeString : Z -> str) (env : Env)
    : M Item (option str) :=
  if negb (windowDefined env) then ret None
  else
    tryCatch
      (cached <- getItem env ;;
       match cached with
       | None => ret None
       | Some cached =>
           parsedCache <- JSON_parse cached ;;
           ret (Some (toLocaleTimeString (timestamp parsedCache)))
       end)
      (fun error => ret None).

End Speakers.

(** ** src/lib/soldOutData.ts *)

Module SoldOut.

(** The [while] loop of this module's [parseCSVLine] (lines 20-42). *)
Fixpoint scanLine (line : str) (result : list str) (current : str)
    (inQuotes : bool) : list str * str :=
  match line with
  | [] => (result, current)
  | char :: rest =>
      if Ascii.eqb char DQ then
        match rest with
        | next :: rest' =>
            if inQuotes && Ascii.eqb next DQ
            then scanLine rest' result (current ++ [DQ]) inQuotes
            else scanLine rest result current (negb inQuotes)
        | [] => scanLine rest result current (negb inQuotes)
        end
      else if Ascii.eqb char COMMA && negb inQuotes then
        scanLine rest (result ++ [trim current]) [] inQuotes
      else if Ascii.eqb char CR && negb inQuotes then
        scanLine rest result current inQuotes
      else if Ascii.eqb char LF && negb inQuotes then
        (result, current)
      else
        scanLine rest result (current ++ [char]) inQuotes
  end.

Definition parseCSVLine (line : str) : list str :=
  let '(result, current) := scanLine line [] [] false in
  if truthy current then result ++ [trim current] else result.

(** [headers.findIndex(pred)]: [None] is the [-1] of the source. *)
Fixpoint findIndex {A} (pred : A -> bool) (l : list A) : option nat :=
  match l with
  | [] => None
  | a :: r =>
      if pred a then Some 0
      else match findIndex pred r with
           | Some i => Some (S i)
           | None => None
           end
  end.

Record SoldOutStatus := mkStatus { isSoldOut : bool }.

(** [header => header.toLowerCase().trim() === 'sold out'] *)
Definition isSoldOutHeader (header : str) : bool :=
  streq (trim (toLowerCase header)) (js "sold out").

(** The [try] block of [fetchSoldOutStatus] (lines 53-91).  The module
    keeps nothing in storage, so the storage type is [unit]. *)
Definition tryFetch (o : FetchOutcome) : M unit SoldOutStatus :=
  response <- fetch o ;;
  if negb (ok response) then ret (mkStatus false)
  else
    csvText <- readText response ;;
    let lines := filter (fun line => truthy (trim line)) (split LF csvText) in
    if length lines <? 2 then ret (mkStatus false)
    else
      let headers := parseCSVLine (nth 0 lines []) in
      let soldOutColumnIndex := findIndex isSoldOutHeader headers in
      match soldOutColumnIndex with
      | None => ret (mkStatus false)
      | Some soldOutColumnIndex =>
          let dataRow := parseCSVLine (nth 1 lines []) in
          (* dataRow[i]?.trim().toUpperCase(), undefined when there is no cell *)
          let soldOutValue :=
            option_map (fun cell => toUpperCase (trim cell))
                       (nth_error dataRow soldOutColumnIndex) in
          let isSoldOut :=
            match soldOutValue with
            | Some v => streq v (js "TRUE")
            | None => false
            end in
          ret (mkStatus isSoldOut)
      end.

(** [fetchSoldOutStatus] (lines 52-96) *)
Definition fetchSoldOutStatus (o : FetchOutcome) : M unit SoldOutStatus :=
  tryCatch (tryFetch o) (fun error => ret (mkStatus false)).

Definition fallbackSoldOutStatus : SoldOutStatus := mkStatus false.

End SoldOut.

(** ** src/app/components/Speakers.tsx *)

Module SpeakersView.

Import Speakers.

(** The state of [SpeakerImage] (lines 14-43): [imageUrls] is computed
    once from the image of the speaker, [currentImageIndex] starts at 0.
    [handleImageError] is the handler of the image's error event; it gives
    the index of the next render. *)
Definition handleImageError (imageUrls : list str) (currentImageIndex : nat)
    : nat :=
  if currentImageIndex <? length imageUrls - 1
  then currentImageIndex + 1
  else currentImageIndex.

Definition currentImageUrl (imageUrls : list str) (currentImageIndex : nat)
    : str :=
  if currentImageIndex <? length imageUrls
  then nth currentImageIndex imageUrls []
  else getFallbackSpeakerImage.

(** The index after [n] error events. *)
Fixpoint afterErrors (imageUrls : list str) (n : nat) : nat :=
  match n with
  | 0 => 0
  | S n' => handleImageError imageUrls (afterErrors imageUrls n')
  end.

(** The state of [Speakers] that decides what is rendered (lines 45-48)
    and the effect that loads the records (lines 50-66), run to its end. *)
Record ViewState := mkView {
  speakers : list Speaker;
  loading : bool;
  error : option str
}.

Definition initialView : ViewState := mkView [] true None.

Definition loadSpeakers (env : Env) (forceRefresh : bool) (clock : Clock)
    (net : Network) (st : ViewState) (w : World Item)
    : ViewState * World Item :=
  (* setLoading(true); setError(null) *)
  let st := mkView (speakers st) true None in
  match fetchSpeakersFromGoogleSheets env forceRefresh clock net w with
  | (Ok speakersData, w') =>
      (mkView speakersData false (error st), w')
  | (Throw err, w') =>
      (mkView (speakers st) false
         (Some (js "Failed to load speakers. Please try again later.")), w')
  end.

(** What the component shows once loading is over: the error with its
    Retry button (line 94), the grid (line 107), or neither. *)
Definition showsError (st : ViewState) : bool :=
  match error st with Some _ => negb (loading st) | None => false end.

Definition showsGrid (st : ViewState) : bool :=
  negb (loading st)
  && match error st with Some _ => false | None => true end
  && (0 <? length (speakers st)).

End SpeakersView.

(** ** Vocabulary of the properties *)

Import Speakers.

(** A string without white space at either end. *)
Definition startsWithWs (s : str) : bool :=
  match s with
  | c :: _ => isWhiteSpace c
  | [] => false
  end.

Definition endsWithWs (s : str) : bool := startsWithWs (rev s).

Definition Trimmed (s : str) : Prop :=
  startsWithWs s = false /\ endsWithWs s = false.

(** The required fields of a record are present and trimmed. *)
Definition WellFormed (sp : Speaker) : Prop :=
  (name sp <> [] /\ Trimmed (name sp)) /\
  (title sp <> [] /\ Trimmed (title sp)) /\
  (image sp <> [] /\ Trimmed (image sp)).

(** The records a successful live fetch builds from its data rows. *)
Definition mappedBatch (rows : list (list str)) : list Speaker :=
  filterBoolean (map mapRow rows).

(** The entry the failure handler is able to read back. *)
Definition readableEntry (env : Env) (w : World Item) : option CachedSpeakerData :=
  if getItemThrows env then None
  else match slot w with
       | Some (Json c) => Some c
       | _ => None
       end.

(** No stored entry holds an empty record list. *)
Definition NoEmptyEntry (w : World Item) : Prop :=
  forall c, slot w = Some (Json c) -> data c <> [].

(** The storage states the module itself can produce: storage starts
    without the key, the key may be cleared from outside, and the only
    code that writes it is a call of [fetchSpeakersFromGoogleSheets],
    through [setCachedData]. *)
Inductive Reachable : World Item -> Prop :=
| reach_fresh (n : nat) : Reachable (mkWorld None n)
| reach_clear (w : World Item) :
    Reachable w -> Reachable (mkWorld None (fetches w))
| reach_call (w : World Item) (env : Env) (forceRefresh : bool)
    (clock : Clock) (net : Network) :
    Reachable w ->
    Reachable (snd (fetchSpeakersFromGoogleSheets env forceRefresh clock net w)).

Ltac unfold_monad :=
  unfold bind, tryCatch, ret, throw, getItem, setItem, removeItem, fetch,
    readText, JSON_parse, JSON_stringify in *.

(** Running the monad: the combinators and the record projections are
    computed away, the program's own functions stay folded. *)
Ltac run_monad :=
  cbv beta iota zeta delta
    [bind tryCatch ret throw getItem setItem removeItem fetch readText
     JSON_parse JSON_stringify slot fetches timestamp data negb fst snd
     windowDefined getItemThrows setItemThrows removeItemThrows
     primary secondary nowCheck nowStore].

(** The live path either throws, leaving storage as it was, or yields a
    non-empty list, having stored at most that very list. *)
Definition LiveOutcome (clock : Clock) (w : World Item)
    (out : result (list Speaker) * World Item) : Prop :=
  match out with
  | (Throw e, w2) => slot w2 = slot w
  | (Ok l, w2) =>
      l <> [] /\
      (slot w2 = slot w \/ slot w2 = Some (Json (mkCached l (nowStore clock))))
  end.


(** Equality of strings up to the case of the letters A to Z. *)
Definition foldCase (c : ascii) : ascii :=
  let n := nat_of_ascii c in
  if (65 <=? n) && (n <=? 90) then ascii_of_nat (n + 32) else c.

Definition ciEqual (a b : str) : bool :=
  streq (map foldCase a) (map foldCase b).

(** The non-blank physical lines [fetchSoldOutStatus] works on. *)
Definition nonBlankLines (csvText : str) : list str :=
  filter (fun line => truthy (trim line)) (split LF csvText).

(** The quoting state after [s], read from the state [inQuotes]: every
    double quote flips it. *)
Fixpoint quoteState (inQuotes : bool) (s : str) : bool :=
  match s with
  | [] => inQuotes
  | c :: r => quoteState (if Ascii.eqb c DQ then negb inQuotes else inQuotes) r
  end.

(** Whether [s] has a line feed outside quotes. *)
Fixpoint hasBareLF (inQuotes : bool) (s : str) : bool :=
  match s with
  | [] => false
  | c :: r =>
      if Ascii.eqb c DQ then hasBareLF (negb inQuotes) r
      else (Ascii.eqb c LF && negb inQuotes) || hasBareLF inQuotes r
  end.

(** The number of commas of [s] outside quotes, and the number of
    comma-separated fields of a line. *)
Fixpoint bareCommas (inQuotes : bool) (s : str) : nat :=
  match s with
  | [] => 0
  | c :: r =>
      if Ascii.eqb c DQ then bareCommas (negb inQuotes) r
      else if Ascii.eqb c COMMA && negb inQuotes then S (bareCommas inQuotes r)
      else bareCommas inQuotes r
  end.

Definition fieldCount (line : str) : nat := S (bareCommas false line).

(** A standard CSV writer: a cell that holds a comma or a quote is put
    between quotes with its quotes doubled, the cells of a row are joined
    by commas and the rows by line feeds. *)
Definition needsQuotes (cell : str) : bool :=
  existsb (fun c => Ascii.eqb c COMMA || Ascii.eqb c DQ) cell.

Definition escapeQuotes (cell : str) : str :=
  flat_map (fun c => if Ascii.eqb c DQ then [DQ; DQ] else [c]) cell.

Definition serializeCell (cell : str) : str :=
  if needsQuotes cell then DQ :: escapeQuotes cell ++ [DQ] else cell.

Fixpoint joinWith (sep : ascii) (parts : list str) : str :=
  match parts with
  | [] => []
  | [p] => p
  | p :: rest => p ++ sep :: joinWith sep rest
  end.

Definition serializeRow (row : list str) : str :=
  joinWith COMMA (map serializeCell row).

Definition serializeCSV (grid : list (list str)) : str :=
  joinWith LF (map serializeRow grid).

(** Parse, write, parse again. *)
Definition reparse (csvText : str) : list (list str) :=
  parseCSVData (serializeCSV (parseCSVData csvText)).

(** A cell whose first and last characters are double quotes. *)
Definition quoteWrapped (cell : str) : bool :=
  startsWith cell [DQ] && endsWith cell [DQ].

(** A cell as the clean-up leaves it: trimmed, without CR or LF. *)
Definition noBreaks (v : str) : bool :=
  forallb (fun c => negb (Ascii.eqb c CR) && negb (Ascii.eqb c LF)) v.

Definition Normal (v : str) : Prop := Trimmed v /\ noBreaks v = true.

Definition noLF (s : str) : bool := forallb (fun c => negb (Ascii.eqb c LF)) s.

(** Every stored entry holds at least one record, and only records whose
    required fields are present and trimmed. *)
Definition GoodEntry (w : World Item) : Prop :=
  forall c, slot w = Some (Json c) -> data c <> [] /\ Forall WellFormed (data c).

(** A file identifier: characters of the class of the Drive patterns. *)
Definition IdChars (g : str) : Prop := Forall (fun c => isIdChar c = true) g.

(** The address [convertGoogleDriveUrl] builds for a file identifier. *)
Definition driveAddress (format : Format) (fileId : str) : str :=
  match format with
  | uc => js "https://drive.google.com/uc?export=view&id=" ++ fileId
  | thumbnail =>
      js "https://drive.google.com/thumbnail?id=" ++ fileId ++ js "&sz=w1000"
  | proxy => js "https://lh3.googleusercontent.com/d/" ++ fileId
  end.

(** A header cell that names the Sold Out column: the words sold out in
    any case of the letters, with white space allowed around them. *)
Definition namesSoldOut (header : str) : bool :=
  ciEqual (trim header) (js "sold out").

(** [idx] is the position of the first element of [l] that satisfies [p]. *)
Definition FirstAt {A} (p : A -> bool) (l : list A) (idx : nat) : Prop :=
  (exists a, nth_error l idx = Some a /\ p a = true) /\
  forall j a, j < idx -> nth_error l j = Some a -> p a = false.

(** The cells of a line that has no quotes, read off without a scanner:
    carriage returns are dropped, the line is cut at its commas and the
    pieces are trimmed.  [plainCells] leaves the last piece out when it is
    empty. *)
Definition dropCR (s : str) : str :=
  filter (fun c => negb (Ascii.eqb c CR)) s.

Definition commaPieces (line : str) : list str := split COMMA (dropCR line).

Definition plainCells (line : str) : list str :=
  let pieces := commaPieces line in
  map trim (if truthy (last pieces []) then pieces else removelast pieces).

(** A text without double quotes. *)
Definition noDQ (s : str) : bool := forallb (fun c => negb (Ascii.eqb c DQ)) s.

(** Literals and addresses as lists of characters. *)
Ltac expose_literal :=
  cbn [driveAddress js list_ascii_of_string app].

(** ** Sample inputs *)

Module Sample.

(** A browser whose storage works, and one whose [removeItem] throws. *)
Definition browser : Env := mkEnv true false false false.
Definition stickyStorage : Env := mkEnv true false false true.

Definition jane : Speaker :=
  mkSpeaker (js "Jane") (js "CEO") (js "") (js "img.png") None.

Definition emptyWorld : World Item := mkWorld None 0.

(** An entry written at time 0. *)
Definition oldWorld : World Item := mkWorld (Some (Json (mkCached [jane] 0))) 0.

Definition offline : Network :=
  mkNetwork (Rejects NetworkError) (Rejects NetworkError).

Definition serving (csvText : str) : Network :=
  mkNetwork (Resolves (mkResponse true 200 (Ok csvText))) (Rejects NetworkError).

(** A header and one data row of three cells. *)
Definition shortSheet : str :=
  js "name,title,company,image,linkedin" ++ [LF] ++ js "Jane,CEO,img.png".

(** A sold-out sheet whose flag cell is [ true ], with CR LF line ends. *)
Definition soldOutSheet : str :=
  js "Event,Sold Out" ++ [CR; LF] ++ js "Elevate, true " ++ [CR; LF].

(** One quoted field whose content is the letter a between two pairs of
    quotes: ten quote characters in all. *)
Definition quotedQuotes : str := q "'''''a'''''".

(** A sheet with a header and one full data row. *)
Definition janeSheet : str :=
  js "name,title,company,image,linkedin" ++ [LF] ++ js "Jane,CEO,,img.png,".

(** A sold-out sheet whose first data row has a quoted cell that holds a
    line feed, before the flag; and the same row with a space for the line
    feed. *)
Definition splitRowSheet : str :=
  js "Event,Sold Out" ++ [LF] ++ q "'Elevate" ++ [LF] ++ q "26',TRUE".

Definition oneLineRowSheet : str :=
  js "Event,Sold Out" ++ [LF] ++ q "'Elevate 26',TRUE".

Definition answering (csvText : str) : FetchOutcome :=
  Resolves (mkResponse true 200 (Ok csvText)).

(** The row of the specification: a quoted comma and a quoted line feed. *)
Definition janeRow : str :=
  q "'Jane, A','CEO" ++ [LF] ++ q "Global Co',img.png".

End Sample.
(** ** Strings: trimming *)

Section Trim.

Lemma trimStart_split (s : str) :
  exists p, s = p ++ trimStart s /\ forallb isWhiteSpace p = true.
Proof.
  induction s as [|c r IH]; simpl.
  - exists []. split; reflexivity.
  - destruct (isWhiteSpace c) eqn:E.
    + destruct IH as [p [Hp Hw]].
      exists (c :: p). simpl. rewrite E, Hw. split; [now rewrite <- Hp | reflexivity].
    + exists []. split; reflexivity.
Qed.

Lemma trimStart_head (s : str) : startsWithWs (trimStart s) = false.
Proof.
  induction s as [|c r IH]; simpl; [reflexivity|].
  destruct (isWhiteSpace c) eqn:E; [exact IH | simpl; exact E].
Qed.

Lemma trimStart_fixed (s : str) : startsWithWs s = false -> trimStart s = s.
Proof.
  destruct s as [|c r]; simpl; [reflexivity|]. now intros ->.
Qed.

Lemma trim_Trimmed (s : str) : Trimmed (trim s).
Proof.
  unfold Trimmed, endsWithWs, trim, trimEnd. split.
  - set (u := trimStart s).
    destruct (trimStart_split (rev u)) as [p [Hp _]].
    assert (Hu : u = rev (trimStart (rev u)) ++ rev p).
    { rewrite <- rev_app_distr, <- Hp. now rewrite rev_involutive. }
    destruct (rev (trimStart (rev u))) as [|c r] eqn:E; [reflexivity|].
    pose proof (trimStart_head s) as Hh. fold u in Hh.
    rewrite Hu in Hh. exact Hh.
  - rewrite rev_involutive. apply trimStart_head.
Qed.

Lemma trim_fixed (s : str) : Trimmed s -> trim s = s.
Proof.
  intros [Hs He]. unfold trim, trimEnd.
  rewrite (trimStart_fixed s Hs).
  unfold endsWithWs in He. rewrite (trimStart_fixed _ He).
  apply rev_involutive.
Qed.

Lemma trim_idempotent (s : str) : trim (trim s) = trim s.
Proof. apply trim_fixed, trim_Trimmed. Qed.

Lemma truthy_nonempty (s : str) : truthy s = true <-> s <> [].
Proof. destruct s; simpl; split; congruence. Qed.

End Trim.

(** ** The code on small inputs *)

(** A doubled quote inside a quoted field is one literal quote. *)
Example escaped_quote_example :
  parseCSVLine (q "'She said ''hi'''") = [q "She said 'hi'"].
Proof. vm_compute. reflexivity. Qed.

(** A carriage return before the line feed is dropped. *)
Example crlf_example :
  parseCSVData (js "a,b" ++ [CR; LF] ++ js "c,d")
  = [[js "a"; js "b"]; [js "c"; js "d"]].
Proof. vm_compute. reflexivity. Qed.

Example drive_url_example :
  convertGoogleDriveUrl (js "https://drive.google.com/file/d/abc_DEF-1/view") uc
  = js "https://drive.google.com/uc?export=view&id=abc_DEF-1" /\
  convertGoogleDriveUrl (js "https://drive.google.com/open?id=XyZ9") proxy
  = js "https://lh3.googleusercontent.com/d/XyZ9" /\
  convertGoogleDriveUrl (js "/speakers/speaker_1.jpg") uc
  = js "/speakers/speaker_1.jpg".
Proof. repeat split; vm_compute; reflexivity. Qed.

Example mapRow_example :
  mapRow [js "Jane"; js "CEO"; js "Acme"; js " img.png "; js "https://x.y/jane"]
  = Some (mkSpeaker (js "Jane") (js "CEO") (js "Acme") (js "img.png")
            (Some (js "https://x.y/jane"))).
Proof. vm_compute. reflexivity. Qed.

Example sold_out_example :
  fst (SoldOut.fetchSoldOutStatus
         (Resolves (mkResponse true 200 (Ok Sample.soldOutSheet)))
         (mkWorld None 0))
  = Ok (SoldOut.mkStatus true).
Proof. vm_compute. reflexivity. Qed.

Example ciEqual_examples :
  ciEqual (js "true") (js "TRUE") = true /\
  ciEqual (js "True") (js "TRUE") = true /\
  ciEqual (js "") (js "TRUE") = false /\
  ciEqual (js "yes") (js "TRUE") = false /\
  ciEqual (js "TRUE1") (js "TRUE") = false.
Proof. repeat split; vm_compute; reflexivity. Qed.

(** ** The Drive patterns *)

Lemma idChar_not_ws (c : ascii) : isIdChar c = true -> isWhiteSpace c = false.
Proof.
  destruct c as [[] [] [] [] [] [] [] []]; vm_compute; congruence.
Qed.

Lemma takeId_all (s : str) : Forall (fun c => isIdChar c = true) (takeId s).
Proof.
  induction s as [|c r IH]; simpl; [constructor|].
  destruct (isIdChar c) eqn:E; constructor; assumption.
Qed.

Lemma matchLitId_group (lit s g : str) :
  matchLitId lit s = Some g ->
  g <> [] /\ Forall (fun c => isIdChar c = true) g.
Proof.
  assert (Hhere : forall s',
    (if startsWith s' lit
     then match takeId (skipn (length lit) s') with
          | [] => None
          | a :: g' => Some (a :: g')
          end
     else None) = Some g ->
    g <> [] /\ Forall (fun c => isIdChar c = true) g).
  { intros s'. destruct (startsWith s' lit); [|discriminate].
    destruct (takeId (skipn (length lit) s')) eqn:E; [discriminate|].
    intros [= <-]. split; [discriminate|]. rewrite <- E. apply takeId_all. }
  induction s as [|c r IH]; cbn [matchLitId]; intros H.
  - destruct (if startsWith [] lit then _ else None) eqn:E; [|discriminate].
    apply (Hhere []). congruence.
  - destruct (if startsWith (c :: r) lit then _ else None) eqn:E.
    + apply (Hhere (c :: r)). congruence.
    + auto.
Qed.

Lemma Trimmed_prefix_group (pre g : str) :
  startsWithWs pre = false -> pre <> [] -> g <> [] ->
  Forall (fun c => isIdChar c = true) g ->
  Trimmed (pre ++ g).
Proof.
  intros Hp Hne Hg Hall. split.
  - destruct pre; [congruence | exact Hp].
  - unfold endsWithWs. rewrite rev_app_distr.
    destruct (rev g) as [|c r] eqn:E.
    + apply (f_equal (@rev ascii)) in E. rewrite rev_involutive in E. contradiction.
    + simpl. apply idChar_not_ws.
      rewrite Forall_forall in Hall. apply Hall.
      apply in_rev. rewrite E. now left.
Qed.

(** The uc form of a Drive address is the address itself or the fixed
    prefix followed by a file identifier. *)
Lemma convertGoogleDriveUrl_uc (url : str) :
  convertGoogleDriveUrl url uc = url \/
  exists g, g <> [] /\ Forall (fun c => isIdChar c = true) g /\
    convertGoogleDriveUrl url uc
    = js "https://drive.google.com/uc?export=view&id=" ++ g.
Proof.
  unfold convertGoogleDriveUrl.
  destruct (negb (truthy url) || negb (includes url (js "drive.google.com")));
    [now left|].
  destruct (matchLitId (js "/file/d/") url) as [g1|] eqn:E1.
  - destruct (matchLitId_group _ _ _ E1) as [Hne Hall].
    destruct g1 as [|a g1]; [congruence|]. cbn [truthy negb].
    right. exists (a :: g1). repeat split; assumption.
  - cbn [truthy negb].
    destruct (matchLitId (js "id=") url) as [g2|] eqn:E2.
    + destruct (matchLitId_group _ _ _ E2) as [Hne Hall].
      destruct g2 as [|a g2]; [congruence|]. cbn [truthy negb].
      right. exists (a :: g2). repeat split; assumption.
    + cbn [truthy negb].
      destruct (matchLitId (js "/open?id=") url) as [g3|] eqn:E3.
      * destruct (matchLitId_group _ _ _ E3) as [Hne Hall].
        destruct g3 as [|a g3]; [congruence|]. cbn [truthy negb].
        right. exists (a :: g3). repeat split; assumption.
      * now left.
Qed.

(** ** The record mapper *)

Lemma mapRow_WellFormed (row : list str) (sp : Speaker) :
  mapRow row = Some sp -> WellFormed sp.
Proof.
  unfold mapRow.
  destruct (length row <? 4); [discriminate|].
  set (n := trim (nth 0 (padRow row) [])).
  set (t := trim (nth 1 (padRow row) [])).
  set (i := trim (nth 3 (padRow row) [])).
  destruct (truthy n) eqn:Hn; [|discriminate].
  destruct (truthy t) eqn:Ht; [|discriminate].
  destruct (truthy i) eqn:Hi; [|discriminate].
  cbn [negb orb]. intros [= <-]. unfold WellFormed; cbn [name title image].
  apply truthy_nonempty in Hn, Ht, Hi.
  split; [split; [assumption | apply trim_Trimmed]|].
  split; [split; [assumption | apply trim_Trimmed]|].
  match goal with
  | |- context [includes ?a ?b] => destruct (includes a b)
  end; [|split; [assumption | apply trim_Trimmed]].
  destruct (convertGoogleDriveUrl_uc i) as [-> | [g [Hg [Hall ->]]]];
    [split; [assumption | apply trim_Trimmed]|].
  split; [discriminate|].
  apply Trimmed_prefix_group; (reflexivity || discriminate || assumption).
Qed.

Lemma mappedBatch_In (rows : list (list str)) (sp : Speaker) :
  In sp (mappedBatch rows) <-> exists row, In row rows /\ mapRow row = Some sp.
Proof.
  unfold mappedBatch. induction rows as [|r rows IH]; simpl.
  - split; [contradiction | intros [? [[] _]]].
  - destruct (mapRow r) as [a|] eqn:E; simpl; rewrite IH; split.
    + intros [<- | [row [Hin Hm]]]; [exists r | exists row]; auto.
    + intros [row [[<- | Hin] Hm]]; [left; congruence | right; exists row; auto].
    + intros [row [Hin Hm]]. exists row; auto.
    + intros [row [[<- | Hin] Hm]]; [congruence | exists row; auto].
Qed.




(** ** The cache and the fetch *)

Lemma fallbackSpeakers_nonempty : fallbackSpeakers <> [].
Proof. discriminate. Qed.

Lemma getCachedData_total (env : Env) (now : Z) (w : World Item) :
  exists r w1,
    getCachedData env now w = (Ok r, w1) /\
    fetches w1 = fetches w /\
    (slot w1 = slot w \/ slot w1 = None) /\
    (forall d, r = Some d ->
       w1 = w /\ exists ts, slot w = Some (Json (mkCached d ts)) /\
                            (now - ts < CACHE_DURATION)%Z).
Proof.
  unfold getCachedData. unfold_monad.
  destruct w as [sl n].
  destruct (windowDefined env), (getItemThrows env), (removeItemThrows env);
    try destruct sl as [[[d ts]|]|];
    cbv beta iota zeta delta -[Z.ltb Z.sub CACHE_DURATION Z.lt];
    try destruct (Z.ltb_spec (now - ts) CACHE_DURATION);
    do 2 eexists; (split; [reflexivity|]);
    (split; [reflexivity|]); (split; [auto|]);
    intros d' Hd'; try discriminate;
    injection Hd' as <-; (split; [reflexivity | eexists; split; eauto]).
Qed.

Lemma cacheCheck_total (env : Env) (forceRefresh : bool) (clock : Clock)
    (w : World Item) :
  exists r w1,
    cacheCheck env forceRefresh clock w = (Ok r, w1) /\
    fetches w1 = fetches w /\
    (slot w1 = slot w \/ slot w1 = None) /\
    (forall d, r = Some d ->
       forceRefresh = false /\ w1 = w /\
       exists ts, slot w = Some (Json (mkCached d ts)) /\
                  (nowCheck clock - ts < CACHE_DURATION)%Z).
Proof.
  unfold cacheCheck. destruct forceRefresh; cbn [negb].
  - unfold_monad. destruct w as [sl n]; cbn [slot fetches].
    destruct (windowDefined env), (removeItemThrows env);
      do 2 eexists; (split; [reflexivity|]); cbn [slot fetches];
      (split; [reflexivity|]); (split; [auto|]); discriminate.
  - destruct (getCachedData_total env (nowCheck clock) w)
      as [r [w1 [E [Hf [Hs Hd]]]]].
    exists r, w1. repeat (split; [assumption|]).
    intros d Hr. destruct (Hd d Hr) as [-> H]. auto.
Qed.

Lemma setCachedData_total (env : Env) (now : Z) (d : list Speaker)
    (w : World Item) :
  exists w1,
    setCachedData env now d w = (Ok tt, w1) /\
    fetches w1 = fetches w /\
    (slot w1 = slot w \/ slot w1 = Some (Json (mkCached d now))).
Proof.
  unfold setCachedData. unfold_monad.
  destruct (windowDefined env), (setItemThrows env); cbn [negb];
    eexists; (split; [reflexivity|]); cbn [slot fetches]; auto.
Qed.

Lemma fetchCsvText_slot (net : Network) (w : World Item) :
  slot (snd (fetchCsvText net w)) = slot w /\
  fetches w < fetches (snd (fetchCsvText net w)).
Proof.
  unfold fetchCsvText. unfold_monad. destruct w as [sl n].
  destruct (primary net) as [e|r]; cbn [slot fetches fst snd]; [auto|].
  destruct (ok r) eqn:Hr; cbn [negb].
  - rewrite Hr. cbn [negb]. auto.
  - destruct (secondary net) as [e|r2]; cbn [slot fetches fst snd]; [auto|].
    destruct (ok r2); cbn [negb slot fetches snd]; auto.
Qed.

Lemma recordsOfCsv_cases (env : Env) (clock : Clock) (csvText : str)
    (w : World Item) :
  exists l w2,
    recordsOfCsv env clock csvText w = (Ok l, w2) /\ l <> [] /\
    fetches w2 = fetches w /\
    (slot w2 = slot w \/ slot w2 = Some (Json (mkCached l (nowStore clock)))).
Proof.
  unfold recordsOfCsv. cbv zeta.
  destruct (truthy (trim csvText)); cbn [negb].
  2:{ do 2 eexists. split; [reflexivity|].
      split; [apply fallbackSpeakers_nonempty | auto]. }
  destruct (length (parseCSVData csvText) <=? 1).
  { do 2 eexists. split; [reflexivity|].
    split; [apply fallbackSpeakers_nonempty | auto]. }
  destruct (filterBoolean (map mapRow (tl (parseCSVData csvText))))
    as [|sp sps] eqn:Esp; cbn [length Nat.eqb].
  { do 2 eexists. split; [reflexivity|].
    split; [apply fallbackSpeakers_nonempty | auto]. }
  destruct (setCachedData_total env (nowStore clock) (sp :: sps) w)
    as [w2 [E [Hf Hs]]].
  exists (sp :: sps), w2. unfold bind, ret. rewrite E.
  split; [reflexivity|]. split; [discriminate|]. split; assumption.
Qed.

Lemma liveFetch_cases (env : Env) (clock : Clock) (net : Network)
    (w : World Item) :
  LiveOutcome clock w (liveFetch env clock net w).
Proof.
  unfold liveFetch, bind.
  pose proof (fetchCsvText_slot net w) as [Hs _].
  destruct (fetchCsvText net w) as [[csvText|e] w1]; cbn [snd] in Hs;
    [|exact Hs].
  destruct (recordsOfCsv_cases env clock csvText w1)
    as [l [w2 [E [Hl [_ Hw]]]]].
  rewrite E. split; [assumption|].
  destruct Hw as [Hw | Hw]; [left; congruence | right; assumption].
Qed.

Lemma onFailure_total (env : Env) (error : exn) (w : World Item) :
  onFailure env error w =
  (Ok (match readableEntry env w with
       | Some c => data c
       | None => fallbackSpeakers
       end), w).
Proof.
  unfold onFailure, readableEntry. unfold_monad.
  destruct (getItemThrows env); [reflexivity|].
  destruct (slot w) as [[c|]|]; reflexivity.
Qed.

Lemma NoEmptyEntry_slot (w w1 : World Item) :
  NoEmptyEntry w -> slot w1 = slot w \/ slot w1 = None -> NoEmptyEntry w1.
Proof.
  intros H [E | E] c Hc; [apply H; congruence | congruence].
Qed.

(** Whatever the environment does, a call returns a non-empty list and
    keeps the storage free of empty entries. *)
Lemma fetchSpeakers_total (env : Env) (forceRefresh : bool) (clock : Clock)
    (net : Network) (w : World Item) :
  NoEmptyEntry w ->
  exists l w',
    fetchSpeakersFromGoogleSheets env forceRefresh clock net w = (Ok l, w') /\
    l <> [] /\ NoEmptyEntry w'.
Proof.
  intros Hinv. unfold fetchSpeakersFromGoogleSheets. unfold bind at 1.
  destruct (cacheCheck_total env forceRefresh clock w)
    as [r [w1 [E [_ [Hs Hd]]]]].
  rewrite E. destruct r as [d|].
  - destruct (Hd d eq_refl) as [_ [-> [ts [Hslot _]]]].
    exists d, w. split; [reflexivity|]. split; [|assumption].
    exact (Hinv _ Hslot).
  - pose proof (NoEmptyEntry_slot w w1 Hinv Hs) as Hinv1.
    unfold tryCatch.
    pose proof (liveFetch_cases env clock net w1) as Hlive.
    destruct (liveFetch env clock net w1) as [[l|e] w2]; cbn in Hlive.
    + destruct Hlive as [Hl Hw]. exists l, w2.
      split; [reflexivity|]. split; [assumption|].
      destruct Hw as [Hw | Hw].
      * apply (NoEmptyEntry_slot w1 w2 Hinv1). now left.
      * intros c Hc. rewrite Hw in Hc. injection Hc as <-. exact Hl.
    + rewrite onFailure_total.
      assert (Hinv2 : NoEmptyEntry w2)
        by (apply (NoEmptyEntry_slot w1 w2 Hinv1); now left).
      do 2 eexists. split; [reflexivity|]. split; [|assumption].
      unfold readableEntry. destruct (getItemThrows env);
        [apply fallbackSpeakers_nonempty|].
      destruct (slot w2) as [[c|]|] eqn:Ec;
        [apply Hinv2; assumption | apply fallbackSpeakers_nonempty ..].
Qed.

Lemma Reachable_NoEmptyEntry (w : World Item) : Reachable w -> NoEmptyEntry w.
Proof.
  induction 1 as [n | w _ _ | w env forceRefresh clock net _ IH].
  - intros c Hc. discriminate.
  - intros c Hc. discriminate.
  - destruct (fetchSpeakers_total env forceRefresh clock net w IH)
      as [l [w' [E [_ Hinv]]]].
    rewrite E. exact Hinv.
Qed.

(** ** Properties of the speakers module *)

(** C1. On a storage that only this module has written, every call of
    [fetchSpeakersFromGoogleSheets] returns normally, whatever the flag,
    the clock, the behaviour of [window] and [localStorage] and the outcome
    of the two requests, and the list it returns is not empty. *)
Theorem fetchSpeakers_never_throws_never_empty :
  forall (w : World Item) (env : Env) (forceRefresh : bool) (clock : Clock)
         (net : Network),
    Reachable w ->
    exists l,
      fst (fetchSpeakersFromGoogleSheets env forceRefresh clock net w) = Ok l /\
      l <> [].
Proof.
  intros w env forceRefresh clock net Hr.
  destruct (fetchSpeakers_total env forceRefresh clock net w
              (Reachable_NoEmptyEntry w Hr)) as [l [w' [E [Hl _]]]].
  exists l. rewrite E. split; [reflexivity | assumption].
Qed.

Lemma fetchSpeakers_never_throws_never_empty_witness :
  exists l,
    fst (fetchSpeakersFromGoogleSheets Sample.browser false (mkClock 600000 600001)
           Sample.offline
           (snd (fetchSpeakersFromGoogleSheets Sample.browser true (mkClock 0 1)
                   (Sample.serving (Sample.shortSheet ++ js ",x")) Sample.emptyWorld)))
    = Ok l /\ l <> [].
Proof.
  apply fetchSpeakers_never_throws_never_empty.
  apply reach_call. apply reach_fresh.
Defined.

(** C4. The row of the specification, with a comma and a line break
    inside quoted fields, is one logical line of three cells, the line
    break having become a single space; both the line parser and the whole
    parser say so. *)
Theorem quoted_comma_and_line_break :
  parseCSVLine Sample.janeRow
    = [js "Jane, A"; js "CEO Global Co"; js "img.png"] /\
  parseCSVData Sample.janeRow
    = [[js "Jane, A"; js "CEO Global Co"; js "img.png"]].
Proof. split; vm_compute; reflexivity. Qed.

(** C7. A record built by the mapper has a name, a title and an image that
    are non-empty and carry no white space at either end; this holds for
    every record of a mapped batch; and a record may have an empty company
    and no link. *)
Theorem mapped_records_have_required_fields :
  (forall row : list str,
     match mapRow row with
     | None => True
     | Some sp => WellFormed sp
     end) /\
  (forall rows : list (list str), Forall WellFormed (mappedBatch rows)) /\
  (exists row sp,
     mapRow row = Some sp /\ company sp = [] /\ linkedin sp = None).
Proof.
  split; [|split].
  - intros row. destruct (mapRow row) as [sp|] eqn:E; [|exact I].
    exact (mapRow_WellFormed row sp E).
  - intros rows. apply Forall_forall. intros sp Hin.
    apply mappedBatch_In in Hin. destruct Hin as [row [_ Hm]].
    exact (mapRow_WellFormed row sp Hm).
  - exists [js "Jane"; js "CEO"; js ""; js "img.png"], Sample.jane.
    repeat split.
Qed.



(** C3. With a window and a storage that can be written and read, what
    [setCachedData] wrote at time [tWrite] is what [getCachedData] returns
    at any time [tRead] less than five minutes later, and a call that does
    not force a refresh then returns it with the world untouched, so
    without any request; from five minutes on, [getCachedData] returns
    nothing. *)
Theorem cache_write_then_read :
  forall (env : Env) (d : list Speaker) (tWrite tRead : Z) (w : World Item),
    windowDefined env = true ->
    getItemThrows env = false ->
    setItemThrows env = false ->
    let w1 := snd (setCachedData env tWrite d w) in
    ((tRead - tWrite < CACHE_DURATION)%Z ->
       getCachedData env tRead w1 = (Ok (Some d), w1) /\
       forall (clock : Clock) (net : Network),
         nowCheck clock = tRead ->
         fetchSpeakersFromGoogleSheets env false clock net w1 = (Ok d, w1) /\
         fetches (snd (fetchSpeakersFromGoogleSheets env false clock net w1))
         = fetches w1) /\
    ((CACHE_DURATION <= tRead - tWrite)%Z ->
       fst (getCachedData env tRead w1) = Ok None).
Proof.
  intros env d tWrite tRead w Hwin Hget Hset w1.
  assert (Hw1 : w1 = mkWorld (Some (Json (mkCached d tWrite))) (fetches w)).
  { subst w1. unfold setCachedData. unfold_monad.
    rewrite Hwin, Hset. reflexivity. }
  assert (Hfresh : (tRead - tWrite < CACHE_DURATION)%Z ->
                   getCachedData env tRead w1 = (Ok (Some d), w1)).
  { intros Hlt. rewrite Hw1. unfold getCachedData.
    rewrite Hwin. unfold_monad. rewrite Hget. run_monad.
    apply Z.ltb_lt in Hlt. rewrite Hlt. reflexivity. }
  split.
  - intros Hlt. split; [exact (Hfresh Hlt)|].
    intros clock net Hnow.
    assert (E : fetchSpeakersFromGoogleSheets env false clock net w1 = (Ok d, w1)).
    { unfold fetchSpeakersFromGoogleSheets, cacheCheck. cbn [negb].
      unfold bind. rewrite Hnow, (Hfresh Hlt). reflexivity. }
    rewrite E. split; reflexivity.
  - intros Hge. rewrite Hw1. unfold getCachedData.
    rewrite Hwin. unfold_monad. rewrite Hget. run_monad.
    apply Z.ltb_ge in Hge. rewrite Hge.
    destruct env as [wd gi si [|]]; reflexivity.
Qed.

Lemma cache_write_then_read_witness :
  getCachedData Sample.browser 299999
    (snd (setCachedData Sample.browser 0 [Sample.jane] Sample.emptyWorld))
  = (Ok (Some [Sample.jane]), Sample.oldWorld) /\
  fst (getCachedData Sample.browser 300000
         (snd (setCachedData Sample.browser 0 [Sample.jane] Sample.emptyWorld)))
  = Ok None.
Proof.
  split.
  - apply (cache_write_then_read Sample.browser [Sample.jane] 0 299999
             Sample.emptyWorld eq_refl eq_refl eq_refl).
    reflexivity.
  - apply (cache_write_then_read Sample.browser [Sample.jane] 0 300000
             Sample.emptyWorld eq_refl eq_refl eq_refl).
    discriminate.
Defined.

(** C6. When a call got past the cache check and its live path throws,
    storage is as the cache check left it and the handler returns the
    records of the entry it reads there, whatever the age of that entry;
    it returns the fallback speakers exactly when it can read no entry.
    A rejected request (network error or timeout) and two responses that
    are not ok are such failures. *)
Theorem failure_prefers_stored_entry :
  forall (env : Env) (forceRefresh : bool) (clock : Clock) (net : Network)
         (w w1 : World Item),
    cacheCheck env forceRefresh clock w = (Ok None, w1) ->
    (forall (e : exn) (w2 : World Item),
       liveFetch env clock net w1 = (Throw e, w2) ->
       slot w2 = slot w1 /\
       fetchSpeakersFromGoogleSheets env forceRefresh clock net w
       = (Ok (match readableEntry env w1 with
              | Some c => data c
              | None => fallbackSpeakers
              end), w2)) /\
    (forall e : exn,
       primary net = Rejects e ->
       fst (liveFetch env clock net w1) = Throw e) /\
    (forall (r1 : Response) (e : exn),
       primary net = Resolves r1 -> ok r1 = false ->
       secondary net = Rejects e ->
       fst (liveFetch env clock net w1) = Throw e) /\
    (forall r1 r2 : Response,
       primary net = Resolves r1 -> ok r1 = false ->
       secondary net = Resolves r2 -> ok r2 = false ->
       fst (liveFetch env clock net w1) = Throw (HttpError (status r2))).
Proof.
  intros env forceRefresh clock net w w1 Hc. split; [|split; [|split]].
  - intros e w2 Hlive.
    pose proof (liveFetch_cases env clock net w1) as Hs.
    rewrite Hlive in Hs. cbn in Hs. split; [exact Hs|].
    unfold fetchSpeakersFromGoogleSheets. unfold bind at 1. rewrite Hc.
    unfold tryCatch. rewrite Hlive, onFailure_total.
    unfold readableEntry. rewrite Hs. reflexivity.
  - intros e Hp. unfold liveFetch, fetchCsvText. unfold_monad.
    rewrite Hp. reflexivity.
  - intros r1 e Hp Hok Hsec. unfold liveFetch, fetchCsvText. unfold_monad.
    rewrite Hp. cbn [fst snd]. rewrite Hok. cbn [negb]. rewrite Hsec.
    reflexivity.
  - intros r1 r2 Hp Hok1 Hsec Hok2.
    unfold liveFetch, fetchCsvText. unfold_monad.
    rewrite Hp. cbn [fst snd]. rewrite Hok1. cbn [negb]. rewrite Hsec.
    rewrite Hok2. reflexivity.
Qed.

Lemma failure_prefers_stored_entry_witness :
  fetchSpeakersFromGoogleSheets Sample.stickyStorage false
    (mkClock 300000 300001) Sample.offline Sample.oldWorld
  = (Ok [Sample.jane], mkWorld (Some (Json (mkCached [Sample.jane] 0))) 1).
Proof.
  exact (proj2
           (proj1
              (failure_prefers_stored_entry Sample.stickyStorage false
                 (mkClock 300000 300001) Sample.offline Sample.oldWorld
                 Sample.oldWorld eq_refl)
              NetworkError
              (mkWorld (Some (Json (mkCached [Sample.jane] 0))) 1)
              eq_refl)).
Defined.

(** X11. With a storage that works, an entry that has outlived the window
    is removed by the cache check, before the request: when the request
    then fails there is nothing left to read and the fallback is
    returned. *)
Lemma expired_entry_is_evicted_before_the_request :
  forall (env : Env) (clock : Clock) (net : Network) (d : list Speaker)
         (ts : Z) (n : nat) (e : exn),
    windowDefined env = true ->
    getItemThrows env = false ->
    removeItemThrows env = false ->
    (CACHE_DURATION <= nowCheck clock - ts)%Z ->
    primary net = Rejects e ->
    fetchSpeakersFromGoogleSheets env false clock net
      (mkWorld (Some (Json (mkCached d ts))) n)
    = (Ok fallbackSpeakers, mkWorld None (S n)).
Proof.
  intros env clock net d ts n e Hwin Hget Hrm Hge Hp.
  unfold fetchSpeakersFromGoogleSheets, cacheCheck, getCachedData, liveFetch,
    fetchCsvText, onFailure.
  destruct env as [wd gi si ri]. destruct net as [p1 p2].
  destruct clock as [tCheck tStore].
  cbn [windowDefined getItemThrows removeItemThrows primary nowCheck] in *.
  subst wd gi ri p1. run_monad.
  apply Z.ltb_ge in Hge. rewrite Hge. reflexivity.
Qed.

(** ** The logical-line pre-scan *)

Lemma split_nonempty (sep : ascii) (s : str) : split sep s <> [].
Proof.
  destruct s as [|c r]; simpl; [discriminate|].
  destruct (Ascii.eqb c sep); [discriminate|].
  destruct (split sep r); discriminate.
Qed.

Lemma split_snoc_sep (sep : ascii) (s : str) :
  split sep (s ++ [sep]) = split sep s ++ [[]].
Proof.
  induction s as [|c r IH]; simpl.
  - now rewrite Ascii.eqb_refl.
  - destruct (Ascii.eqb c sep); [now rewrite IH|].
    rewrite IH. pose proof (split_nonempty sep r) as Hne.
    destruct (split sep r) as [|h t]; [contradiction | reflexivity].
Qed.

Lemma quoteCount_app (a b : str) :
  quoteCount (a ++ b) = quoteCount a + quoteCount b.
Proof. unfold quoteCount. now rewrite filter_app, length_app. Qed.

(** The quotes of a text are those of its physical lines. *)
Lemma quoteCount_split (s : str) :
  quoteCount s = list_sum (map quoteCount (split LF s)).
Proof.
  induction s as [|c r IH]; [reflexivity|].
  cbn [split]. destruct (Ascii.eqb c LF) eqn:E.
  - apply Ascii.eqb_eq in E. subst c.
    change (list_sum (map quoteCount ([] :: split LF r)))
      with (0 + list_sum (map quoteCount (split LF r))).
    rewrite <- IH. reflexivity.
  - pose proof (split_nonempty LF r) as Hne.
    destruct (split LF r) as [|h t]; [contradiction|].
    change (list_sum (map quoteCount ((c :: h) :: t)))
      with (quoteCount ([c] ++ h) + list_sum (map quoteCount t)).
    change (list_sum (map quoteCount (h :: t)))
      with (quoteCount h + list_sum (map quoteCount t)) in IH.
    change (c :: r) with ([c] ++ r).
    rewrite !quoteCount_app. lia.
Qed.

(** After any turn of the loop the buffer is empty or holds an odd number
    of quotes. *)
Lemma accumulate_buffer (st : list str * str) (line : str) :
  Nat.even (quoteCount (snd (accumulate st line))) = true ->
  snd (accumulate st line) = [].
Proof.
  destruct st as [lines cur]. unfold accumulate.
  destruct (Nat.even (quoteCount (cur ++ _ ++ line))) eqn:E; cbn [snd];
    [reflexivity | congruence].
Qed.

Lemma accumulate_parity (st : list str * str) (line : str) :
  Nat.even (quoteCount (snd (accumulate st line)))
  = Nat.even (quoteCount (snd st) + quoteCount line).
Proof.
  destruct st as [lines cur]. unfold accumulate. cbn [snd].
  assert (Hq : quoteCount (cur ++ (if truthy cur then [LF] else []) ++ line)
               = quoteCount cur + quoteCount line).
  { rewrite !quoteCount_app. destruct (truthy cur); reflexivity. }
  rewrite Hq.
  destruct (Nat.even (quoteCount cur + quoteCount line)) eqn:E; cbn [snd].
  - reflexivity.
  - rewrite Hq. exact E.
Qed.

Lemma even_add_congr (a b c : nat) :
  Nat.even a = Nat.even b -> Nat.even (a + c) = Nat.even (b + c).
Proof. intros H. now rewrite !Nat.even_add, H. Qed.

Lemma fold_accumulate_parity (rawLines : list str) (st : list str * str) :
  Nat.even (quoteCount (snd (fold_left accumulate rawLines st)))
  = Nat.even (quoteCount (snd st) + list_sum (map quoteCount rawLines)).
Proof.
  revert st. induction rawLines as [|l ls IH]; intros st.
  - cbn [fold_left map]. change (list_sum []) with 0. now rewrite Nat.add_0_r.
  - cbn [fold_left map].
    change (list_sum (quoteCount l :: map quoteCount ls))
      with (quoteCount l + list_sum (map quoteCount ls)).
    rewrite IH, Nat.add_assoc. apply even_add_congr, accumulate_parity.
Qed.

Lemma fold_accumulate_buffer (rawLines : list str) (st : list str * str) :
  snd st = [] ->
  Nat.even (quoteCount (snd (fold_left accumulate rawLines st))) = true ->
  snd (fold_left accumulate rawLines st) = [].
Proof.
  revert st. induction rawLines as [|l ls IH] using rev_ind; intros st Hst Hev.
  - exact Hst.
  - rewrite fold_left_app in *. cbn [fold_left] in *.
    now apply accumulate_buffer.
Qed.

(** A text with an even number of quotes leaves no open buffer behind, and
    a line feed appended to it adds one empty logical line. *)
Lemma logicalLines_trailing_LF (t : str) :
  Nat.even (quoteCount t) = true ->
  logicalLines (t ++ [LF]) = logicalLines t ++ [[]].
Proof.
  intros Hev. unfold logicalLines.
  rewrite split_snoc_sep, fold_left_app. cbn [fold_left].
  assert (Hbuf : snd (fold_left accumulate (split LF t) ([], [])) = []).
  { apply fold_accumulate_buffer; [reflexivity|].
    rewrite fold_accumulate_parity. cbn [snd].
    change (quoteCount []) with 0. rewrite Nat.add_0_l, <- quoteCount_split.
    exact Hev. }
  destruct (fold_left accumulate (split LF t) ([], [])) as [lines cur].
  cbn [snd] in Hbuf. subst cur. reflexivity.
Qed.

(** C2, as the code has it. The parser gives the empty text one row, made
    of one empty cell; and a line feed at the end of a text whose quotes
    are balanced adds one such row after the rows of the text.  Such a row
    never becomes a record: the mapper drops it, and the caller returns the
    fallback for a blank text without parsing it. *)
Theorem empty_lines_become_rows :
  parseCSVData [] = [[ [] ]] /\
  (forall t : str,
     Nat.even (quoteCount t) = true ->
     parseCSVData (t ++ [LF]) = parseCSVData t ++ [[ [] ]]) /\
  mapRow [ [] ] = None /\
  (forall (env : Env) (clock : Clock) (csvText : str) (w : World Item),
     trim csvText = [] ->
     recordsOfCsv env clock csvText w = (Ok fallbackSpeakers, w)).
Proof.
  split; [reflexivity|]. split; [|split; [reflexivity|]].
  - intros t Hev. unfold parseCSVData.
    rewrite (logicalLines_trailing_LF t Hev), map_app. reflexivity.
  - intros env clock csvText w Hblank. unfold recordsOfCsv.
    rewrite Hblank. reflexivity.
Qed.

Lemma empty_lines_become_rows_witness :
  parseCSVData (js "a,b" ++ [LF]) = parseCSVData (js "a,b") ++ [[ [] ]].
Proof.
  apply (proj1 (proj2 empty_lines_become_rows) (js "a,b")). reflexivity.
Defined.

(** C2 as the specification words it fails: the empty text does not parse
    to zero rows, and the text [a] followed by a line feed has a second
    row for the empty line after the line feed. *)
Lemma empty_text_has_one_row :
  parseCSVData [] <> [] /\
  parseCSVData (js "a" ++ [LF]) = [[js "a"]; [ [] ]] /\
  parseCSVData (js "a" ++ [LF]) <> parseCSVData (js "a").
Proof.
  split; [|split].
  - vm_compute. discriminate.
  - vm_compute. reflexivity.
  - vm_compute. discriminate.
Qed.

(** ** Properties of the sold-out module *)

Lemma streq_true (a b : str) : streq a b = true <-> a = b.
Proof.
  unfold streq. destruct (list_eq_dec ascii_dec a b); split; congruence.
Qed.

(** The capital of a character is one of T, R, U, E only for that letter
    in either case. *)
Lemma upperChar_letter (c y : ascii) (rest : str) :
  In y (js "TRUE") ->
  upperChar c = y :: rest ->
  rest = [] /\ foldCase c = foldCase y.
Proof.
  intros Hy H.
  destruct c as [[] [] [] [] [] [] [] []]; vm_compute in H;
    injection H as <- <-; vm_compute in Hy;
    repeat (destruct Hy as [Hy | Hy]; [try discriminate|]);
    try contradiction; split; reflexivity.
Qed.

Lemma letter_upperChar (c y : ascii) :
  In y (js "TRUE") ->
  foldCase c = foldCase y ->
  upperChar c = [y].
Proof.
  intros Hy H. vm_compute in Hy.
  repeat (destruct Hy as [<- | Hy];
          [destruct c as [[] [] [] [] [] [] [] []]; vm_compute in H;
           try discriminate; reflexivity|]).
  contradiction.
Qed.

Lemma toUpperCase_letters (t s : str) :
  incl t (js "TRUE") ->
  toUpperCase s = t <-> map foldCase s = map foldCase t.
Proof.
  revert t. induction s as [|c s IH]; intros t Ht.
  - destruct t; simpl; split; congruence.
  - split.
    + cbn [toUpperCase flat_map map]. intros H.
      destruct (upperChar c) as [|y rest] eqn:Eu.
      { destruct c as [[] [] [] [] [] [] [] []]; vm_compute in Eu; discriminate. }
      destruct t as [|y' t]; [discriminate|].
      cbn [app] in H. injection H as -> Hrest.
      assert (Hy : In y' (js "TRUE")) by (apply Ht; now left).
      destruct (upperChar_letter c y' rest Hy Eu) as [-> Hc].
      cbn [app] in Hrest. cbn [map]. rewrite Hc. f_equal.
      apply IH; [|exact Hrest]. intros x Hx. apply Ht. now right.
    + destruct t as [|y t]; [discriminate|]. cbn [map]. intros H.
      injection H as Hc Hrest.
      assert (Hy : In y (js "TRUE")) by (apply Ht; now left).
      cbn [toUpperCase flat_map]. rewrite (letter_upperChar c y Hy Hc).
      cbn [app]. f_equal. apply IH; [|exact Hrest].
      intros x Hx. apply Ht. now right.
Qed.

(** The comparison of the code is the comparison up to case. *)
Lemma toUpperCase_TRUE (s : str) :
  streq (toUpperCase s) (js "TRUE") = ciEqual s (js "TRUE").
Proof.
  unfold ciEqual.
  destruct (streq (toUpperCase s) (js "TRUE")) eqn:E1;
    destruct (streq (map foldCase s) (map foldCase (js "TRUE"))) eqn:E2;
    try reflexivity.
  - apply streq_true in E1.
    apply (toUpperCase_letters (js "TRUE") s (incl_refl _)) in E1.
    apply streq_true in E1. congruence.
  - apply streq_true in E2.
    apply (toUpperCase_letters (js "TRUE") s (incl_refl _)) in E2.
    apply streq_true in E2. congruence.
Qed.

(** What the call returns once the sheet has a header line with the column
    and a first data line. *)
Lemma fetchSoldOutStatus_on_sheet (r : Response) (csvText header dataLine : str)
    (rest : list str) (idx : nat) (w : World unit) :
  ok r = true ->
  text r = Ok csvText ->
  nonBlankLines csvText = header :: dataLine :: rest ->
  SoldOut.findIndex SoldOut.isSoldOutHeader (SoldOut.parseCSVLine header)
  = Some idx ->
  fst (SoldOut.fetchSoldOutStatus (Resolves r) w)
  = Ok (SoldOut.mkStatus
          match nth_error (SoldOut.parseCSVLine dataLine) idx with
          | Some cell => ciEqual (trim cell) (js "TRUE")
          | None => false
          end).
Proof.
  intros Hok Ht Hl Hi.
  unfold SoldOut.fetchSoldOutStatus, SoldOut.tryFetch. run_monad.
  rewrite Hok, Ht. fold (nonBlankLines csvText). rewrite Hl.
  cbn [length Nat.ltb Nat.leb nth]. rewrite Hi.
  destruct (nth_error (SoldOut.parseCSVLine dataLine) idx) as [cell|];
    cbn [option_map]; [|reflexivity].
  now rewrite toUpperCase_TRUE.
Qed.

(** [fetchSoldOutStatus] always returns a status, and its flag is true
    exactly when the response is ok, the text has at least two non-blank
    physical lines, the header test finds a cell in the first of them, and
    the cell at that position in the second, trimmed, equals TRUE up to
    case.  An empty cell, a missing cell and every other value give
    false. *)
Theorem sold_out_flag_iff_cell_is_TRUE :
  forall (o : FetchOutcome) (w : World unit),
    exists st : SoldOut.SoldOutStatus,
      fst (SoldOut.fetchSoldOutStatus o w) = Ok st /\
      (SoldOut.isSoldOut st = true <->
       exists (r : Response) (csvText header dataLine : str)
              (rest : list str) (idx : nat) (cell : str),
         o = Resolves r /\ ok r = true /\ text r = Ok csvText /\
         nonBlankLines csvText = header :: dataLine :: rest /\
         SoldOut.findIndex SoldOut.isSoldOutHeader
           (SoldOut.parseCSVLine header) = Some idx /\
         nth_error (SoldOut.parseCSVLine dataLine) idx = Some cell /\
         ciEqual (trim cell) (js "TRUE") = true).
Proof.
  intros o w.
  assert (Hfalse : forall P : Prop,
            (P -> False) ->
            SoldOut.isSoldOut (SoldOut.mkStatus false) = true <-> P).
  { intros P HP. split; [discriminate | intros H; destruct (HP H)]. }
  destruct o as [e|r].
  { exists (SoldOut.mkStatus false). split; [reflexivity|].
    apply Hfalse. intros (r & ? & ? & ? & ? & ? & ? & H & _). discriminate. }
  destruct (ok r) eqn:Hok.
  2:{ exists (SoldOut.mkStatus false). split.
      - unfold SoldOut.fetchSoldOutStatus, SoldOut.tryFetch. run_monad.
        now rewrite Hok.
      - apply Hfalse. intros (r' & ? & ? & ? & ? & ? & ? & H & Hok' & _).
        injection H as <-. congruence. }
  destruct (text r) as [csvText|e] eqn:Ht.
  2:{ exists (SoldOut.mkStatus false). split.
      - unfold SoldOut.fetchSoldOutStatus, SoldOut.tryFetch. run_monad.
        now rewrite Hok, Ht.
      - apply Hfalse. intros (r' & ? & ? & ? & ? & ? & ? & H & _ & Ht' & _).
        injection H as <-. congruence. }
  destruct (nonBlankLines csvText) as [|header [|dataLine rest]] eqn:Hl.
  1,2: exists (SoldOut.mkStatus false); split;
    [ unfold SoldOut.fetchSoldOutStatus, SoldOut.tryFetch; run_monad;
      rewrite Hok, Ht; fold (nonBlankLines csvText); now rewrite Hl
    | apply Hfalse;
      intros (r' & csv' & ? & ? & ? & ? & ? & H & _ & Ht' & Hl' & _);
      injection H as <-; rewrite Ht in Ht'; injection Ht' as <-;
      rewrite Hl in Hl'; discriminate ].
  destruct (SoldOut.findIndex SoldOut.isSoldOutHeader
              (SoldOut.parseCSVLine header)) as [idx|] eqn:Hi.
  2:{ exists (SoldOut.mkStatus false). split.
      - unfold SoldOut.fetchSoldOutStatus, SoldOut.tryFetch. run_monad.
        rewrite Hok, Ht. fold (nonBlankLines csvText). rewrite Hl.
        cbn [length Nat.ltb Nat.leb nth]. now rewrite Hi.
      - apply Hfalse.
        intros (r' & csv' & h' & d' & ? & ? & ? & H & _ & Ht' & Hl' & Hi' & _).
        injection H as <-. rewrite Ht in Ht'. injection Ht' as <-.
        rewrite Hl in Hl'. injection Hl' as <- <- <-. congruence. }
  eexists. split.
  { exact (fetchSoldOutStatus_on_sheet r csvText header dataLine rest idx w
             Hok Ht Hl Hi). }
  cbn [SoldOut.isSoldOut]. split.
  - intros H.
    destruct (nth_error (SoldOut.parseCSVLine dataLine) idx) as [cell|] eqn:Hc;
      [|discriminate].
    exists r, csvText, header, dataLine, rest, idx, cell. repeat split; assumption.
  - intros (r' & csv' & h' & d' & rest' & idx' & cell & H & _ & Ht' & Hl' & Hi' & Hc & Hci).
    injection H as <-. rewrite Ht in Ht'. injection Ht' as <-.
    rewrite Hl in Hl'. injection Hl' as <- <- <-.
    rewrite Hi in Hi'. injection Hi' as <-.
    rewrite Hc. exact Hci.
Qed.

(** C8 at the failing input.  In [Sample.splitRowSheet] the first data row
    is [Elevate 26] (with a line feed for the space, inside quotes) and
    [TRUE], as the speakers parser reads it, and its cell in the Sold Out
    column is [TRUE]; yet [fetchSoldOutStatus] answers false.  It cuts the
    text at every line feed, so the row it parses is the piece before the
    quoted line feed, which has no second cell.  With the row on one line
    the answer is true. *)
Theorem sold_out_row_cut_at_quoted_line_feed :
  nonBlankLines Sample.splitRowSheet
  = [js "Event,Sold Out"; q "'Elevate"; q "26',TRUE"] /\
  SoldOut.parseCSVLine (js "Event,Sold Out") = [js "Event"; js "Sold Out"] /\
  SoldOut.findIndex SoldOut.isSoldOutHeader [js "Event"; js "Sold Out"] = Some 1 /\
  SoldOut.parseCSVLine (q "'Elevate") = [js "Elevate"] /\
  fst (SoldOut.fetchSoldOutStatus (Sample.answering Sample.splitRowSheet)
         (mkWorld None 0))
  = Ok (SoldOut.mkStatus false) /\
  parseCSVData Sample.splitRowSheet
  = [[js "Event"; js "Sold Out"]; [js "Elevate 26"; js "TRUE"]] /\
  fst (SoldOut.fetchSoldOutStatus (Sample.answering Sample.oneLineRowSheet)
         (mkWorld None 0))
  = Ok (SoldOut.mkStatus true).
Proof. repeat split; vm_compute; reflexivity. Qed.

(** ** The two line scanners *)

Lemma scanLine_same : SoldOut.scanLine = Speakers.scanLine.
Proof. reflexivity. Qed.

(** Induction that follows the scanner: it consumes one character, or
    two for a doubled quote. *)
Lemma str_pair_ind (P : str -> Prop) :
  P [] ->
  (forall a, P [a]) ->
  (forall a b l, P l -> P (b :: l) -> P (a :: b :: l)) ->
  forall l, P l.
Proof.
  intros H0 H1 H2.
  assert (H : forall l, P l /\ forall a, P (a :: l)).
  { induction l as [|b l [IHl IHbl]]; split; auto. }
  intros l. apply H.
Qed.

(** Scanning a line that has no line feed outside quotes and then one more
    comma, met outside quotes: the comma closes the field that was open. *)
Lemma scanLine_snoc_comma (body : str) :
  forall (result : list str) (current : str) (inQuotes : bool),
    hasBareLF inQuotes body = false ->
    quoteState inQuotes body = false ->
    scanLine (body ++ [COMMA]) result current inQuotes
    = (fst (scanLine body result current inQuotes)
         ++ [trim (snd (scanLine body result current inQuotes))], []).
Proof.
  induction body as [|a|a b l IHl IHbl] using str_pair_ind;
    intros result current inQuotes Hlf Hq.
  - cbn in Hq. subst inQuotes. reflexivity.
  - cbn [app scanLine]. cbn [hasBareLF quoteState] in Hlf, Hq.
    destruct (Ascii.eqb a DQ) eqn:Ea.
    + apply negb_false_iff in Hq. subst inQuotes.
      apply Ascii.eqb_eq in Ea. subst a. reflexivity.
    + subst inQuotes. cbn [negb andb] in *. rewrite andb_true_r in *.
      destruct (Ascii.eqb a COMMA) eqn:Ec; [reflexivity|].
      destruct (Ascii.eqb a CR) eqn:Er; [reflexivity|].
      rewrite orb_false_r in Hlf. rewrite Hlf. reflexivity.
  - change ((a :: b :: l) ++ [COMMA]) with (a :: b :: (l ++ [COMMA])).
    cbn [scanLine].
    cbn [hasBareLF quoteState] in Hlf, Hq.
    destruct (Ascii.eqb a DQ) eqn:Ea.
    + destruct (inQuotes && Ascii.eqb b DQ) eqn:Eb.
      * apply andb_true_iff in Eb. destruct Eb as [-> Eb].
        rewrite Eb in Hlf, Hq. cbn [negb] in Hlf, Hq.
        apply IHl; assumption.
      * change (b :: l ++ [COMMA]) with ((b :: l) ++ [COMMA]).
        apply IHbl; assumption.
    + change (b :: l ++ [COMMA]) with ((b :: l) ++ [COMMA]).
      destruct (Ascii.eqb a COMMA && negb inQuotes) eqn:Ec.
      { apply orb_false_iff in Hlf. destruct Hlf as [_ Hlf].
        apply IHbl; assumption. }
      destruct (Ascii.eqb a CR && negb inQuotes) eqn:Er.
      { apply orb_false_iff in Hlf. destruct Hlf as [_ Hlf].
        apply IHbl; assumption. }
      apply orb_false_iff in Hlf. destruct Hlf as [Hl1 Hlf].
      rewrite Hl1. apply IHbl; assumption.
Qed.

(** On such a line the scanner closes one field for each comma outside
    quotes. *)
Lemma scanLine_closed_fields (line : str) :
  forall (result : list str) (current : str) (inQuotes : bool),
    hasBareLF inQuotes line = false ->
    exists cells,
      fst (scanLine line result current inQuotes) = result ++ cells /\
      length cells = bareCommas inQuotes line.
Proof.
  induction line as [|a|a b l IHl IHbl] using str_pair_ind;
    intros result current inQuotes Hlf.
  - exists []. split; [now rewrite app_nil_r | reflexivity].
  - cbn [scanLine bareCommas]. cbn [hasBareLF] in Hlf.
    destruct (Ascii.eqb a DQ) eqn:Ea.
    + exists []. split; [now rewrite app_nil_r | reflexivity].
    + rewrite orb_false_r in Hlf.
      destruct (Ascii.eqb a COMMA && negb inQuotes) eqn:Ec.
      * exists [trim current]. split; reflexivity.
      * destruct (Ascii.eqb a CR && negb inQuotes);
          [|rewrite Hlf]; exists []; (split; [now rewrite app_nil_r | reflexivity]).
  - cbn [scanLine]. cbn [hasBareLF] in Hlf.
    destruct (Ascii.eqb a DQ) eqn:Ea.
    + destruct (inQuotes && Ascii.eqb b DQ) eqn:Eb.
      * apply andb_true_iff in Eb. destruct Eb as [-> Eb].
        cbn [hasBareLF negb] in Hlf. rewrite Eb in Hlf.
        destruct (IHl result (current ++ [DQ]) true Hlf) as [cells [E Hlen]].
        exists cells. split; [exact E|].
        rewrite Hlen. cbn [bareCommas negb]. rewrite Ea, Eb. reflexivity.
      * destruct (IHbl result current (negb inQuotes) Hlf) as [cells [E Hlen]].
        exists cells. split; [exact E|].
        rewrite Hlen. cbn [bareCommas]. now rewrite Ea.
    + apply orb_false_iff in Hlf. destruct Hlf as [Hl1 Hlf].
      destruct (Ascii.eqb a COMMA && negb inQuotes) eqn:Ec.
      * destruct (IHbl (result ++ [trim current]) [] inQuotes Hlf)
          as [cells [E Hlen]].
        exists (trim current :: cells). split.
        -- transitivity
             (fst (scanLine (b :: l) (result ++ [trim current]) [] inQuotes));
             [reflexivity|].
           rewrite E, <- app_assoc. reflexivity.
        -- cbn [length]. rewrite Hlen.
           change (bareCommas inQuotes (a :: b :: l))
             with (if Ascii.eqb a DQ then bareCommas (negb inQuotes) (b :: l)
                   else if Ascii.eqb a COMMA && negb inQuotes
                        then S (bareCommas inQuotes (b :: l))
                        else bareCommas inQuotes (b :: l)).
           now rewrite Ea, Ec.
      * assert (Hb : bareCommas inQuotes (a :: b :: l)
                     = bareCommas inQuotes (b :: l)).
        { change (bareCommas inQuotes (a :: b :: l))
            with (if Ascii.eqb a DQ then bareCommas (negb inQuotes) (b :: l)
                  else if Ascii.eqb a COMMA && negb inQuotes
                       then S (bareCommas inQuotes (b :: l))
                       else bareCommas inQuotes (b :: l)).
          now rewrite Ea, Ec. }
        rewrite Hb, Hl1.
        destruct (Ascii.eqb a CR && negb inQuotes); apply IHbl; assumption.
Qed.

Lemma bareCommas_snoc_comma (body : str) :
  forall inQuotes : bool,
    quoteState inQuotes body = false ->
    bareCommas inQuotes (body ++ [COMMA]) = S (bareCommas inQuotes body).
Proof.
  induction body as [|c r IH]; intros inQuotes Hq.
  - cbn in Hq. subst inQuotes. reflexivity.
  - cbn [app bareCommas]. cbn [quoteState] in Hq.
    destruct (Ascii.eqb c DQ); [now apply IH|].
    destruct (Ascii.eqb c COMMA && negb inQuotes); now rewrite IH.
Qed.

Lemma cleanField_empty : cleanField [] = [].
Proof. reflexivity. Qed.

(** The speakers parser always returns at least one cell. *)
Lemma parseCSVLine_not_nil (line : str) : parseCSVLine line <> [].
Proof.
  unfold parseCSVLine. destruct (scanLine line [] [] false) as [result current].
  rewrite map_app. cbn [map]. intros H. now apply app_eq_nil in H.
Qed.

(** C10. On a line that ends in a comma outside quotes, the sold-out
    parser returns one cell fewer than the line has comma-separated fields,
    while the speakers parser returns one cell per field: the cells the
    sold-out parser found, then the empty last one.  The speakers parser
    never returns an empty row.  A line holds no line feed outside quoted
    fields. *)
Theorem sold_out_parser_drops_trailing_empty_cell :
  forall body : str,
    quoteState false body = false ->
    hasBareLF false body = false ->
    let line := body ++ [COMMA] in
    length (SoldOut.parseCSVLine line) + 1 = fieldCount line /\
    length (Speakers.parseCSVLine line) = fieldCount line /\
    Speakers.parseCSVLine line
    = map cleanField (SoldOut.parseCSVLine line ++ [[]]) /\
    last (Speakers.parseCSVLine line) [COMMA] = [] /\
    (forall any : str, Speakers.parseCSVLine any <> []).
Proof.
  intros body Hq Hlf line.
  pose proof (scanLine_snoc_comma body [] [] false Hlf Hq) as Hscan.
  destruct (scanLine_closed_fields body [] [] false Hlf) as [cells [Hc Hlen]].
  fold line in Hscan. rewrite Hc in Hscan. cbn [app] in Hscan.
  assert (Hsold : SoldOut.parseCSVLine line
                  = cells ++ [trim (snd (scanLine body [] [] false))]).
  { unfold SoldOut.parseCSVLine. rewrite scanLine_same, Hscan. reflexivity. }
  assert (Hspk : Speakers.parseCSVLine line
                 = map cleanField (SoldOut.parseCSVLine line ++ [[]])).
  { unfold Speakers.parseCSVLine. rewrite Hscan, Hsold. reflexivity. }
  assert (Hfields : fieldCount line = S (S (length cells))).
  { unfold fieldCount, line. now rewrite (bareCommas_snoc_comma body false Hq), Hlen. }
  split; [|split; [|split; [exact Hspk|split]]].
  - rewrite Hsold, length_app, Hfields. cbn [length]. lia.
  - rewrite Hspk, length_map, Hsold, !length_app, Hfields. cbn [length]. lia.
  - rewrite Hspk, map_app. cbn [map]. rewrite cleanField_empty.
    apply last_last.
  - exact parseCSVLine_not_nil.
Qed.

Lemma sold_out_parser_drops_trailing_empty_cell_witness :
  length (SoldOut.parseCSVLine (js "a,b,")) + 1 = fieldCount (js "a,b,") /\
  length (Speakers.parseCSVLine (js "a,b,")) = fieldCount (js "a,b,").
Proof.
  destruct (sold_out_parser_drops_trailing_empty_cell (js "a,b")
              eq_refl eq_refl) as [H1 [H2 _]].
  split; [exact H1 | exact H2].
Defined.

(** The line [a,b,] in both parsers. *)
Example trailing_comma_example :
  SoldOut.parseCSVLine (js "a,b,") = [js "a"; js "b"] /\
  Speakers.parseCSVLine (js "a,b,") = [js "a"; js "b"; js ""].
Proof. split; vm_compute; reflexivity. Qed.

(** ** Writing the grid back *)

(** C9 at the failing input.  The field of [Sample.quotedQuotes] parses to
    the letter a between quotes; written back and parsed again it loses
    those quotes, because the field clean-up strips a pair of quotes that
    the scanner had already decoded. *)
Theorem reparse_loses_quotes :
  parseCSVData Sample.quotedQuotes = [[q "'a'"]] /\
  serializeCSV (parseCSVData Sample.quotedQuotes) = q "'''a'''" /\
  reparse Sample.quotedQuotes = [[js "a"]] /\
  reparse Sample.quotedQuotes <> parseCSVData Sample.quotedQuotes.
Proof.
  repeat split; try (vm_compute; reflexivity).
  vm_compute. discriminate.
Qed.

(** *** Cells in normal form *)

Lemma trimStart_forallb (P : ascii -> bool) (s : str) :
  forallb P s = true -> forallb P (trimStart s) = true.
Proof.
  induction s as [|c r IH]; [reflexivity|].
  cbn [trimStart]. destruct (isWhiteSpace c); [|auto].
  cbn [forallb]. intros H. apply andb_true_iff in H. apply IH, H.
Qed.

Lemma forallb_rev (P : ascii -> bool) (s : str) :
  forallb P (rev s) = forallb P s.
Proof.
  induction s as [|c r IH]; [reflexivity|].
  cbn [rev forallb]. rewrite forallb_app, IH. cbn [forallb].
  rewrite andb_true_r. apply andb_comm.
Qed.

Lemma trim_forallb (P : ascii -> bool) (s : str) :
  forallb P s = true -> forallb P (trim s) = true.
Proof.
  intros H. unfold trim, trimEnd.
  rewrite forallb_rev. apply trimStart_forallb.
  rewrite forallb_rev. now apply trimStart_forallb.
Qed.

Lemma replaceChar_no_CR (s : str) :
  forallb (fun c => negb (Ascii.eqb c CR)) (replaceChar CR LF s) = true.
Proof.
  induction s as [|c r IH]; [reflexivity|].
  cbn [replaceChar map forallb]. fold (replaceChar CR LF r). rewrite IH.
  destruct (Ascii.eqb c CR) eqn:E; [reflexivity | now rewrite E].
Qed.

Lemma collapseLF_noBreaks (s : str) (inRun : bool) :
  forallb (fun c => negb (Ascii.eqb c CR)) s = true ->
  noBreaks (collapseLF inRun s) = true.
Proof.
  revert inRun. induction s as [|c r IH]; intros inRun H; [reflexivity|].
  cbn [forallb] in H. apply andb_true_iff in H. destruct H as [Hc Hr].
  cbn [collapseLF]. destruct (Ascii.eqb c LF) eqn:E.
  - destruct inRun; [now apply IH|].
    unfold noBreaks. cbn [forallb]. now apply IH.
  - unfold noBreaks. cbn [forallb]. rewrite Hc, E. now apply IH.
Qed.

Lemma cleanField_Normal (field : str) : Normal (cleanField field).
Proof.
  unfold cleanField. split; [apply trim_Trimmed|].
  apply trim_forallb. apply collapseLF_noBreaks, replaceChar_no_CR.
Qed.

Lemma noBreaks_cons (c : ascii) (v : str) :
  noBreaks (c :: v) = true ->
  Ascii.eqb c CR = false /\ Ascii.eqb c LF = false /\ noBreaks v = true.
Proof.
  unfold noBreaks. cbn [forallb]. intros H.
  apply andb_true_iff in H. destruct H as [H Hv].
  apply andb_true_iff in H. destruct H as [H1 H2].
  apply negb_true_iff in H1, H2. auto.
Qed.

Lemma replacePair_no_CR (v : str) :
  noBreaks v = true -> replacePair CR LF LF v = v.
Proof.
  induction v as [|c r IH]; [reflexivity|]. intros H.
  apply noBreaks_cons in H. destruct H as [Hc [_ Hr]].
  cbn [replacePair]. destruct r as [|d r']; [reflexivity|].
  rewrite Hc. cbn [andb]. now rewrite (IH Hr).
Qed.

Lemma replaceChar_no_change (v : str) :
  noBreaks v = true -> replaceChar CR LF v = v.
Proof.
  induction v as [|c r IH]; [reflexivity|]. intros H.
  apply noBreaks_cons in H. destruct H as [Hc [_ Hr]].
  cbn [replaceChar map]. fold (replaceChar CR LF r).
  now rewrite Hc, (IH Hr).
Qed.

Lemma collapseLF_no_change (v : str) :
  noBreaks v = true -> collapseLF false v = v.
Proof.
  induction v as [|c r IH]; [reflexivity|]. intros H.
  apply noBreaks_cons in H. destruct H as [_ [Hc Hr]].
  cbn [collapseLF]. now rewrite Hc, (IH Hr).
Qed.

(** The clean-up leaves a normal cell alone, unless the cell begins and
    ends with a quote. *)
Lemma cleanField_fixed (v : str) :
  Normal v -> quoteWrapped v = false -> cleanField v = v.
Proof.
  intros [Ht Hb] Hw. unfold cleanField. rewrite (trim_fixed v Ht).
  unfold quoteWrapped in Hw. rewrite Hw.
  rewrite (replacePair_no_CR v Hb), (replaceChar_no_change v Hb),
    (collapseLF_no_change v Hb).
  exact (trim_fixed v Ht).
Qed.

(** *** The scanner on written cells *)

(** An unquoted cell: its characters are copied. *)
Lemma scanLine_raw_cell (v rest : str) :
  forall (result : list str) (current : str),
    needsQuotes v = false ->
    noBreaks v = true ->
    scanLine (v ++ rest) result current false
    = scanLine rest result (current ++ v) false.
Proof.
  induction v as [|c r IH]; intros result current Hq Hb.
  - cbn [app]. now rewrite app_nil_r.
  - apply noBreaks_cons in Hb. destruct Hb as [Hcr [Hlf Hb]].
    unfold needsQuotes in Hq. cbn [existsb] in Hq.
    apply orb_false_iff in Hq. destruct Hq as [Hc Hq].
    apply orb_false_iff in Hc. destruct Hc as [Hcomma Hdq].
    cbn [app scanLine]. rewrite Hdq, Hcomma, Hcr, Hlf. cbn [andb].
    rewrite (IH result (current ++ [c]) Hq Hb), <- app_assoc. reflexivity.
Qed.

(** The inside of a quoted cell, up to and with the closing quote. *)
Lemma scanLine_quoted_body (v rest : str) :
  forall (result : list str) (current : str),
    startsWith rest [DQ] = false ->
    scanLine (escapeQuotes v ++ DQ :: rest) result current true
    = scanLine rest result (current ++ v) false.
Proof.
  induction v as [|c r IH]; intros result current Hrest.
  - cbn [escapeQuotes flat_map app]. rewrite app_nil_r.
    cbn [scanLine]. rewrite Ascii.eqb_refl.
    destruct rest as [|next rest']; [reflexivity|].
    cbn [startsWith] in Hrest. rewrite andb_true_r in Hrest.
    rewrite Ascii.eqb_sym in Hrest. rewrite Hrest. reflexivity.
  - cbn [escapeQuotes flat_map]. fold (escapeQuotes r).
    destruct (Ascii.eqb c DQ) eqn:Ec.
    + apply Ascii.eqb_eq in Ec. subst c.
      change (([DQ; DQ] ++ escapeQuotes r) ++ DQ :: rest)
        with (DQ :: DQ :: (escapeQuotes r ++ DQ :: rest)).
      cbn [scanLine]. rewrite Ascii.eqb_refl. cbn [andb].
      rewrite (IH result (current ++ [DQ]) Hrest), <- app_assoc. reflexivity.
    + change (([c] ++ escapeQuotes r) ++ DQ :: rest)
        with (c :: (escapeQuotes r ++ DQ :: rest)).
      cbn [scanLine]. rewrite Ec. cbn [negb]. rewrite !andb_false_r.
      rewrite (IH result (current ++ [c]) Hrest), <- app_assoc. reflexivity.
Qed.

(** A written cell, quoted or not, is read back as it was. *)
Lemma scanLine_cell (v rest : str) (result : list str) (current : str) :
  noBreaks v = true ->
  startsWith rest [DQ] = false ->
  scanLine (serializeCell v ++ rest) result current false
  = scanLine rest result (current ++ v) false.
Proof.
  intros Hb Hrest. unfold serializeCell.
  destruct (needsQuotes v) eqn:Hq.
  - change ((DQ :: escapeQuotes v ++ [DQ]) ++ rest)
      with (DQ :: ((escapeQuotes v ++ [DQ]) ++ rest)).
    rewrite <- app_assoc. cbn [app].
    transitivity (scanLine (escapeQuotes v ++ DQ :: rest) result current true).
    + cbn [scanLine]. rewrite Ascii.eqb_refl. cbn [andb negb].
      destruct (escapeQuotes v ++ DQ :: rest); reflexivity.
    + now apply scanLine_quoted_body.
  - now apply scanLine_raw_cell.
Qed.

Lemma scanLine_row (cells : list str) :
  forall (v : str) (result : list str),
    Forall Normal (v :: cells) ->
    scanLine (serializeRow (v :: cells)) result [] false
    = (result ++ removelast (v :: cells), last (v :: cells) []).
Proof.
  induction cells as [|v2 cells IH]; intros v result Hall.
  - unfold serializeRow. cbn [map joinWith].
    rewrite <- (app_nil_r (serializeCell v)).
    rewrite scanLine_cell; [|apply (Forall_inv Hall) | reflexivity].
    cbn [app removelast last scanLine]. now rewrite app_nil_r.
  - unfold serializeRow. cbn [map joinWith].
    fold (serializeRow (v2 :: cells)).
    destruct (Forall_inv Hall) as [Ht Hb].
    rewrite scanLine_cell; [|exact Hb | reflexivity].
    cbn [app]. cbn [scanLine].
    change (scanLine (serializeRow (v2 :: cells)) (result ++ [trim v]) [] false
            = (result ++ removelast (v :: v2 :: cells),
               last (v :: v2 :: cells) [])).
    rewrite (IH v2 (result ++ [trim v]) (Forall_inv_tail Hall)).
    rewrite (trim_fixed v Ht), <- app_assoc. reflexivity.
Qed.

(** A row of normal cells none of which is wrapped in quotes is read back
    as it was written. *)
Lemma parseCSVLine_serializeRow (row : list str) :
  row <> [] ->
  Forall Normal row ->
  Forall (fun v => quoteWrapped v = false) row ->
  parseCSVLine (serializeRow row) = row.
Proof.
  intros Hne Hn Hw. destruct row as [|v cells]; [contradiction|].
  unfold parseCSVLine. rewrite (scanLine_row cells v [] Hn). cbn [app].
  assert (Hlast : Normal (last (v :: cells) [])).
  { rewrite Forall_forall in Hn. apply Hn.
    destruct (exists_last Hne) as [l [a E]]. rewrite E, last_last.
    apply in_or_app. right. now left. }
  rewrite (trim_fixed _ (proj1 Hlast)).
  assert (E : removelast (v :: cells) ++ [last (v :: cells) []] = v :: cells)
    by (symmetry; apply app_removelast_last; exact Hne).
  rewrite E.
  rewrite <- (map_id (v :: cells)) at 2. apply map_ext_in.
  intros x Hx. rewrite Forall_forall in Hn, Hw.
  apply cleanField_fixed; auto.
Qed.

(** *** The written text, line by line *)

Lemma split_no_sep (p : str) : noLF p = true -> split LF p = [p].
Proof.
  induction p as [|c r IH]; [reflexivity|].
  unfold noLF. cbn [forallb]. intros H. apply andb_true_iff in H.
  destruct H as [Hc Hr]. apply negb_true_iff in Hc.
  cbn [split]. rewrite Hc, (IH Hr). reflexivity.
Qed.

Lemma split_app_sep (p rest : str) :
  noLF p = true -> split LF (p ++ LF :: rest) = p :: split LF rest.
Proof.
  induction p as [|c r IH].
  - intros _. cbn [app split]. now rewrite Ascii.eqb_refl.
  - unfold noLF. cbn [forallb]. intros H. apply andb_true_iff in H.
    destruct H as [Hc Hr]. apply negb_true_iff in Hc.
    cbn [app split]. rewrite Hc, (IH Hr). reflexivity.
Qed.

Lemma split_joinWith (rows : list str) :
  rows <> [] ->
  Forall (fun r => noLF r = true) rows ->
  split LF (joinWith LF rows) = rows.
Proof.
  induction rows as [|r rows IH]; [contradiction|]. intros _ Hall.
  destruct rows as [|r2 rows].
  - cbn [joinWith]. apply split_no_sep, (Forall_inv Hall).
  - change (joinWith LF (r :: r2 :: rows))
      with (r ++ LF :: joinWith LF (r2 :: rows)).
    rewrite (split_app_sep r _ (Forall_inv Hall)).
    f_equal. apply IH; [discriminate | exact (Forall_inv_tail Hall)].
Qed.

Lemma fold_accumulate_balanced (rows : list str) :
  forall acc : list str,
    Forall (fun r => Nat.even (quoteCount r) = true) rows ->
    fold_left accumulate rows (acc, []) = (acc ++ rows, []).
Proof.
  induction rows as [|r rows IH]; intros acc Hall.
  - cbn [fold_left]. now rewrite app_nil_r.
  - cbn [fold_left]. unfold accumulate at 2. cbn [truthy app].
    rewrite (Forall_inv Hall), (IH _ (Forall_inv_tail Hall)), <- app_assoc.
    reflexivity.
Qed.

(** Lines without line feed and with balanced quotes are the logical lines
    of their concatenation. *)
Lemma logicalLines_joinWith (rows : list str) :
  rows <> [] ->
  Forall (fun r => noLF r = true) rows ->
  Forall (fun r => Nat.even (quoteCount r) = true) rows ->
  logicalLines (joinWith LF rows) = rows.
Proof.
  intros Hne Hlf Hev. unfold logicalLines.
  rewrite (split_joinWith rows Hne Hlf), (fold_accumulate_balanced rows [] Hev).
  reflexivity.
Qed.

Lemma noBreaks_noLF (v : str) : noBreaks v = true -> noLF v = true.
Proof.
  induction v as [|c r IH]; [reflexivity|]. intros H.
  apply noBreaks_cons in H. destruct H as [_ [Hc Hr]].
  unfold noLF. cbn [forallb]. rewrite Hc. exact (IH Hr).
Qed.

Lemma noLF_app (a b : str) : noLF (a ++ b) = noLF a && noLF b.
Proof. apply forallb_app. Qed.

Lemma escapeQuotes_noLF (v : str) : noLF v = true -> noLF (escapeQuotes v) = true.
Proof.
  induction v as [|c r IH]; [reflexivity|].
  unfold noLF. cbn [forallb]. intros H. apply andb_true_iff in H.
  destruct H as [Hc Hr].
  cbn [escapeQuotes flat_map]. fold (escapeQuotes r).
  fold (noLF (escapeQuotes r)) in *.
  change (noLF ((if Ascii.eqb c DQ then [DQ; DQ] else [c]) ++ escapeQuotes r) = true).
  rewrite noLF_app, (IH Hr), andb_true_r.
  destruct (Ascii.eqb c DQ); [reflexivity|].
  unfold noLF. cbn [forallb]. now rewrite Hc.
Qed.

Lemma serializeCell_noLF (v : str) :
  noBreaks v = true -> noLF (serializeCell v) = true.
Proof.
  intros H. apply noBreaks_noLF in H. unfold serializeCell.
  destruct (needsQuotes v); [|exact H].
  change (DQ :: escapeQuotes v ++ [DQ]) with ([DQ] ++ escapeQuotes v ++ [DQ]).
  rewrite !noLF_app, (escapeQuotes_noLF v H). reflexivity.
Qed.

Lemma serializeRow_noLF (row : list str) :
  Forall Normal row -> noLF (serializeRow row) = true.
Proof.
  unfold serializeRow. induction 1 as [|v row [_ Hv] _ IH]; [reflexivity|].
  destruct row as [|v2 row].
  - cbn [map joinWith]. now apply serializeCell_noLF.
  - change (joinWith COMMA (map serializeCell (v :: v2 :: row)))
      with (serializeCell v ++ [COMMA] ++ joinWith COMMA (map serializeCell (v2 :: row))).
    rewrite !noLF_app, (serializeCell_noLF v Hv), IH. reflexivity.
Qed.

Lemma quoteCount_escapeQuotes (v : str) :
  quoteCount (escapeQuotes v) = 2 * quoteCount v.
Proof.
  induction v as [|c r IH]; [reflexivity|].
  cbn [escapeQuotes flat_map]. fold (escapeQuotes r).
  change (c :: r) with ([c] ++ r). rewrite !quoteCount_app, IH.
  destruct (Ascii.eqb c DQ) eqn:E.
  - apply Ascii.eqb_eq in E. subst c. cbn. lia.
  - unfold quoteCount at 1 3. cbn [filter]. rewrite E. cbn. lia.
Qed.

Lemma quoteCount_unquoted (v : str) : needsQuotes v = false -> quoteCount v = 0.
Proof.
  induction v as [|c r IH]; [reflexivity|].
  unfold needsQuotes. cbn [existsb]. intros H.
  apply orb_false_iff in H. destruct H as [Hc Hr].
  apply orb_false_iff in Hc. destruct Hc as [_ Hdq].
  unfold quoteCount. cbn [filter]. rewrite Hdq. exact (IH Hr).
Qed.

Lemma serializeCell_balanced (v : str) :
  Nat.even (quoteCount (serializeCell v)) = true.
Proof.
  unfold serializeCell. destruct (needsQuotes v) eqn:Hq.
  - change (DQ :: escapeQuotes v ++ [DQ]) with ([DQ] ++ escapeQuotes v ++ [DQ]).
    rewrite !quoteCount_app, quoteCount_escapeQuotes.
    change (quoteCount [DQ]) with 1.
    replace (1 + (2 * quoteCount v + 1)) with (2 * (quoteCount v + 1)) by lia.
    apply Nat.even_mul.
  - now rewrite (quoteCount_unquoted v Hq).
Qed.

Lemma serializeRow_balanced (row : list str) :
  Nat.even (quoteCount (serializeRow row)) = true.
Proof.
  unfold serializeRow. induction row as [|v row IH]; [reflexivity|].
  destruct row as [|v2 row].
  - cbn [map joinWith]. apply serializeCell_balanced.
  - change (joinWith COMMA (map serializeCell (v :: v2 :: row)))
      with (serializeCell v ++ [COMMA] ++ joinWith COMMA (map serializeCell (v2 :: row))).
    rewrite !quoteCount_app, !Nat.even_add, serializeCell_balanced, IH.
    reflexivity.
Qed.

(** *** The grid of a parse *)

Lemma parseCSVLine_Normal (line : str) : Forall Normal (parseCSVLine line).
Proof.
  unfold parseCSVLine. destruct (scanLine line [] [] false) as [result current].
  apply Forall_forall. intros v Hv. apply in_map_iff in Hv.
  destruct Hv as [f [<- _]]. apply cleanField_Normal.
Qed.

Lemma trimStart_nil_blank (s : str) :
  trimStart s = [] -> forallb isWhiteSpace s = true.
Proof.
  induction s as [|c r IH]; [reflexivity|]. cbn [trimStart forallb].
  destruct (isWhiteSpace c); [exact IH | discriminate].
Qed.

Lemma trim_nil_blank (s : str) : trim s = [] -> forallb isWhiteSpace s = true.
Proof.
  unfold trim, trimEnd. intros H.
  apply (f_equal (@rev ascii)) in H. rewrite rev_involutive in H. cbn [rev] in H.
  apply trimStart_nil_blank in H. rewrite forallb_rev in H.
  destruct (trimStart_split s) as [p [Hp Hw]].
  rewrite Hp, forallb_app, Hw, H. reflexivity.
Qed.

Lemma blank_no_quotes (s : str) :
  forallb isWhiteSpace s = true -> quoteCount s = 0.
Proof.
  induction s as [|c r IH]; [reflexivity|]. cbn [forallb]. intros H.
  apply andb_true_iff in H. destruct H as [Hc Hr].
  unfold quoteCount. cbn [filter].
  destruct (Ascii.eqb c DQ) eqn:E; [|exact (IH Hr)].
  apply Ascii.eqb_eq in E. subst c. discriminate.
Qed.

Lemma open_buffer_not_blank (cur : str) :
  Nat.even (quoteCount cur) = false -> truthy (trim cur) = true.
Proof.
  intros H. destruct (trim cur) as [|c r] eqn:E; [|reflexivity].
  apply trim_nil_blank, blank_no_quotes in E. rewrite E in H. discriminate.
Qed.

Lemma accumulate_progress (st : list str * str) (line : str) :
  fst (accumulate st line) <> [] \/
  Nat.even (quoteCount (snd (accumulate st line))) = false.
Proof.
  destruct st as [lines cur]. unfold accumulate.
  destruct (Nat.even (quoteCount (cur ++ _ ++ line))) eqn:E; cbn [fst snd].
  - left. intros H. now apply app_eq_nil in H.
  - right. exact E.
Qed.

Lemma logicalLines_not_nil (csvText : str) : logicalLines csvText <> [].
Proof.
  unfold logicalLines.
  destruct (exists_last (split_nonempty LF csvText)) as [ls [l E]].
  rewrite E, fold_left_app. cbn [fold_left].
  pose proof (accumulate_progress (fold_left accumulate ls ([], [])) l) as H.
  destruct (accumulate (fold_left accumulate ls ([], [])) l) as [lines cur].
  cbn [fst snd] in H. destruct H as [H | H].
  - destruct (truthy (trim cur)); [|exact H].
    intros H'. now apply app_eq_nil in H'.
  - rewrite (open_buffer_not_blank cur H).
    intros H'. now apply app_eq_nil in H'.
Qed.

Lemma parseCSVData_not_nil (csvText : str) : parseCSVData csvText <> [].
Proof.
  unfold parseCSVData. intros H. apply map_eq_nil in H.
  exact (logicalLines_not_nil csvText H).
Qed.

(** A grid of non-empty rows of normal cells, none wrapped in quotes, is
    what the parser reads from the text the writer makes of it. *)
Lemma parseCSVData_serializeCSV (grid : list (list str)) :
  grid <> [] ->
  Forall (fun row => row <> [] /\ Forall Normal row) grid ->
  Forall (Forall (fun v => quoteWrapped v = false)) grid ->
  parseCSVData (serializeCSV grid) = grid.
Proof.
  intros Hne Hrows Hw. unfold parseCSVData, serializeCSV.
  rewrite logicalLines_joinWith.
  - rewrite map_map. rewrite <- (map_id grid) at 2. apply map_ext_in.
    intros row Hin. rewrite Forall_forall in Hrows, Hw.
    destruct (Hrows row Hin) as [Hr Hn].
    apply parseCSVLine_serializeRow; auto.
  - intros H. apply map_eq_nil in H. contradiction.
  - apply Forall_forall. intros line Hin. apply in_map_iff in Hin.
    destruct Hin as [row [<- Hin]]. rewrite Forall_forall in Hrows.
    apply serializeRow_noLF, (Hrows row Hin).
  - apply Forall_forall. intros line Hin. apply in_map_iff in Hin.
    destruct Hin as [row [<- _]]. apply serializeRow_balanced.
Qed.

(** X10. Parsing, writing and parsing again does give the first grid for
    every text whose parsed cells are not wrapped in quotes: the second
    clean-up of such cells is the only thing that stands in the way. *)
Theorem reparse_fixed_without_wrapped_cells :
  forall csvText : str,
    Forall (Forall (fun v => quoteWrapped v = false)) (parseCSVData csvText) ->
    reparse csvText = parseCSVData csvText.
Proof.
  intros csvText Hw. unfold reparse.
  apply parseCSVData_serializeCSV; [apply parseCSVData_not_nil | | exact Hw].
  unfold parseCSVData. apply Forall_forall. intros row Hin.
  apply in_map_iff in Hin. destruct Hin as [line [<- _]].
  split; [apply parseCSVLine_not_nil | apply parseCSVLine_Normal].
Qed.

Lemma reparse_fixed_without_wrapped_cells_witness :
  reparse Sample.janeRow = parseCSVData Sample.janeRow.
Proof.
  apply reparse_fixed_without_wrapped_cells.
  replace (parseCSVData Sample.janeRow)
    with [[js "Jane, A"; js "CEO Global Co"; js "img.png"]]
    by (vm_compute; reflexivity).
  repeat constructor.
Defined.

(** ** Further properties of the fetch and the cache *)



(** What the second half of the live path returns and stores: the
    fallback and nothing, or the mapped batch and at most that batch. *)
Lemma recordsOfCsv_result (env : Env) (clock : Clock) (csvText : str)
    (w : World Item) :
  recordsOfCsv env clock csvText w = (Ok fallbackSpeakers, w) \/
  exists l w2,
    recordsOfCsv env clock csvText w = (Ok l, w2) /\
    l = mappedBatch (tl (parseCSVData csvText)) /\ l <> [] /\
    (slot w2 = slot w \/ slot w2 = Some (Json (mkCached l (nowStore clock)))).
Proof.
  unfold recordsOfCsv. cbv zeta.
  destruct (negb (truthy (trim csvText))); [now left|].
  destruct (length (parseCSVData csvText) <=? 1); [now left|].
  fold (mappedBatch (tl (parseCSVData csvText))).
  destruct (mappedBatch (tl (parseCSVData csvText))) as [|sp sps] eqn:Eb;
    cbn [length Nat.eqb]; [now left|].
  right.
  destruct (setCachedData_total env (nowStore clock) (sp :: sps) w)
    as [w2 [E [_ Hs]]].
  exists (sp :: sps), w2. unfold bind, ret. rewrite E.
  split; [reflexivity|]. split; [reflexivity|]. split; [discriminate | exact Hs].
Qed.

Lemma mappedBatch_WellFormed (rows : list (list str)) :
  Forall WellFormed (mappedBatch rows).
Proof.
  apply Forall_forall. intros sp Hin.
  apply mappedBatch_In in Hin. destruct Hin as [row [_ Hm]].
  exact (mapRow_WellFormed row sp Hm).
Qed.

Lemma GoodEntry_slot (w w1 : World Item) :
  GoodEntry w -> slot w1 = slot w \/ slot w1 = None -> GoodEntry w1.
Proof.
  intros H [E | E] c Hc; [apply H; congruence | congruence].
Qed.

Lemma fetchSpeakers_keeps_GoodEntry (env : Env) (forceRefresh : bool)
    (clock : Clock) (net : Network) (w : World Item) :
  GoodEntry w ->
  exists l w',
    fetchSpeakersFromGoogleSheets env forceRefresh clock net w = (Ok l, w') /\
    (l = fallbackSpeakers \/ Forall WellFormed l) /\ GoodEntry w'.
Proof.
  intros Hinv. unfold fetchSpeakersFromGoogleSheets. unfold bind at 1.
  destruct (cacheCheck_total env forceRefresh clock w)
    as [r [w1 [E [_ [Hs Hd]]]]].
  rewrite E. destruct r as [d|].
  - destruct (Hd d eq_refl) as [_ [-> [ts [Hslot _]]]].
    exists d, w. split; [reflexivity|]. split; [|assumption].
    right. exact (proj2 (Hinv _ Hslot)).
  - pose proof (GoodEntry_slot w w1 Hinv Hs) as Hinv1.
    unfold tryCatch, liveFetch. unfold bind at 1.
    pose proof (fetchCsvText_slot net w1) as [Hs1 _].
    destruct (fetchCsvText net w1) as [[csvText|e] w2]; cbn [snd] in Hs1.
    + assert (Hinv2 : GoodEntry w2)
        by (apply (GoodEntry_slot w1 w2 Hinv1); now left).
      destruct (recordsOfCsv_result env clock csvText w2)
        as [E2 | [l [w3 [E2 [Hl [Hne Hw]]]]]]; rewrite E2.
      * exists fallbackSpeakers, w2. split; [reflexivity|]. split; [now left | assumption].
      * exists l, w3. split; [reflexivity|].
        assert (Hwf : Forall WellFormed l)
          by (rewrite Hl; apply mappedBatch_WellFormed).
        split; [now right|].
        destruct Hw as [Hw | Hw].
        -- apply (GoodEntry_slot w2 w3 Hinv2). now left.
        -- intros c Hc. rewrite Hw in Hc. injection Hc as <-.
           cbn [data]. split; assumption.
    + assert (Hinv2 : GoodEntry w2)
        by (apply (GoodEntry_slot w1 w2 Hinv1); now left).
      rewrite onFailure_total.
      do 2 eexists. split; [reflexivity|]. split; [|assumption].
      unfold readableEntry. destruct (getItemThrows env); [now left|].
      destruct (slot w2) as [[c|]|] eqn:Ec; [|now left ..].
      right. exact (proj2 (Hinv2 c Ec)).
Qed.

Lemma Reachable_GoodEntry (w : World Item) : Reachable w -> GoodEntry w.
Proof.
  induction 1 as [n | w _ _ | w env forceRefresh clock net _ IH].
  - intros c Hc. discriminate.
  - intros c Hc. discriminate.
  - destruct (fetchSpeakers_keeps_GoodEntry env forceRefresh clock net w IH)
      as [l [w' [E [_ Hinv]]]].
    rewrite E. exact Hinv.
Qed.

(** X1. On a storage that only this module has written, the list a call
    returns is the fallback set or is made of records whose name, title
    and image are non-empty and trimmed, cached lists included; and what
    the call leaves in storage is a non-empty list of such records. *)
Theorem returned_and_stored_records_are_well_formed :
  forall (w : World Item) (env : Env) (forceRefresh : bool) (clock : Clock)
         (net : Network),
    Reachable w ->
    exists l w',
      fetchSpeakersFromGoogleSheets env forceRefresh clock net w = (Ok l, w') /\
      (l = fallbackSpeakers \/ Forall WellFormed l) /\
      (forall c, slot w' = Some (Json c) ->
                 data c <> [] /\ Forall WellFormed (data c)).
Proof.
  intros w env forceRefresh clock net Hr.
  exact (fetchSpeakers_keeps_GoodEntry env forceRefresh clock net w
           (Reachable_GoodEntry w Hr)).
Qed.

Lemma returned_and_stored_records_are_well_formed_witness :
  exists l w',
    fetchSpeakersFromGoogleSheets Sample.browser false (mkClock 10 11)
      (Sample.serving Sample.janeSheet) Sample.emptyWorld = (Ok l, w') /\
    (l = fallbackSpeakers \/ Forall WellFormed l) /\
    (forall c, slot w' = Some (Json c) ->
               data c <> [] /\ Forall WellFormed (data c)).
Proof.
  apply returned_and_stored_records_are_well_formed. apply reach_fresh.
Defined.



(** X3. With a window and a storage that can be read and written: when a
    call reaches the network and the sheet yields at least one record, the
    call returns the mapped records and stores them, and every later call
    that does not force a refresh and starts less than five minutes after
    that returns the very same records without a request. *)
Theorem fetched_records_are_served_from_cache :
  forall (env : Env) (forceRefresh : bool) (clock : Clock) (net : Network)
         (w w1 w2 : World Item) (csvText : str),
    windowDefined env = true ->
    getItemThrows env = false ->
    setItemThrows env = false ->
    cacheCheck env forceRefresh clock w = (Ok None, w1) ->
    fetchCsvText net w1 = (Ok csvText, w2) ->
    trim csvText <> [] ->
    mappedBatch (tl (parseCSVData csvText)) <> [] ->
    let l := mappedBatch (tl (parseCSVData csvText)) in
    let w3 := mkWorld (Some (Json (mkCached l (nowStore clock)))) (fetches w2) in
    fetchSpeakersFromGoogleSheets env forceRefresh clock net w = (Ok l, w3) /\
    (forall (clock' : Clock) (net' : Network),
       (nowCheck clock' - nowStore clock < CACHE_DURATION)%Z ->
       fetchSpeakersFromGoogleSheets env false clock' net' w3 = (Ok l, w3)).
Proof.
  intros env forceRefresh clock net w w1 w2 csvText Hwin Hget Hset Hc Hf
    Hblank Hbatch l w3.
  assert (Hrec : recordsOfCsv env clock csvText w2 = (Ok l, w3)).
  { unfold recordsOfCsv. cbv zeta.
    apply truthy_nonempty in Hblank. rewrite Hblank. cbn [negb].
    fold (mappedBatch (tl (parseCSVData csvText))). fold l.
    destruct (parseCSVData csvText) as [|hd [|r rs]] eqn:Ep;
      try (exfalso; apply Hbatch; reflexivity).
    cbn [length Nat.leb].
    destruct l as [|sp sps] eqn:El; [contradiction|].
    cbn [length Nat.eqb].
    unfold setCachedData. rewrite Hwin. unfold_monad. rewrite Hset.
    reflexivity. }
  split.
  - unfold fetchSpeakersFromGoogleSheets, bind. rewrite Hc.
    unfold tryCatch, liveFetch, bind. rewrite Hf, Hrec. reflexivity.
  - intros clock' net' Hfresh.
    unfold fetchSpeakersFromGoogleSheets, cacheCheck. cbn [negb].
    unfold getCachedData. rewrite Hwin. unfold_monad. rewrite Hget.
    subst w3. run_monad. apply Z.ltb_lt in Hfresh.
    destruct clock' as [tc ts]. cbn [nowCheck] in Hfresh.
    destruct clock as [tc0 ts0]. cbn [nowStore] in *.
    rewrite Hfresh. reflexivity.
Qed.

Lemma fetched_records_are_served_from_cache_witness :
  fetchSpeakersFromGoogleSheets Sample.browser false (mkClock 299999 300000)
    Sample.offline
    (snd (fetchSpeakersFromGoogleSheets Sample.browser true (mkClock 0 1)
            (Sample.serving Sample.janeSheet) Sample.oldWorld))
  = (Ok [Sample.jane], mkWorld (Some (Json (mkCached [Sample.jane] 1))) 1).
Proof.
  pose proof (fetched_records_are_served_from_cache Sample.browser true
                (mkClock 0 1) (Sample.serving Sample.janeSheet)
                Sample.oldWorld (mkWorld None 0) (mkWorld None 1)
                Sample.janeSheet eq_refl eq_refl eq_refl eq_refl eq_refl) as H.
  assert (Hb : mappedBatch (tl (parseCSVData Sample.janeSheet)) = [Sample.jane])
    by (vm_compute; reflexivity).
  assert (H1 : trim Sample.janeSheet <> []) by (vm_compute; discriminate).
  assert (H2 : mappedBatch (tl (parseCSVData Sample.janeSheet)) <> [])
    by (rewrite Hb; discriminate).
  destruct (H H1 H2) as [Hfirst Hlater].
  rewrite Hfirst. cbn [snd]. rewrite Hb in *.
  apply Hlater. reflexivity.
Defined.

(** X4. A text under the cache key that is not JSON never breaks a call:
    the call returns normally with a non-empty list; and when the window
    exists and the storage can be read and cleared, a call that does not
    force a refresh deletes that text before it goes to the network, so
    that it is no longer there afterwards. *)
Theorem corrupt_entry_is_discarded :
  forall (env : Env) (forceRefresh : bool) (clock : Clock) (net : Network)
         (n : nat),
    exists l w',
      fetchSpeakersFromGoogleSheets env forceRefresh clock net
        (mkWorld (Some Malformed) n) = (Ok l, w') /\
      l <> [] /\
      (windowDefined env = true -> removeItemThrows env = false ->
       getItemThrows env = false \/ forceRefresh = true ->
       slot w' <> Some Malformed).
Proof.
  intros env forceRefresh clock net n.
  set (w := mkWorld (Some Malformed) n).
  assert (Hinv : NoEmptyEntry w) by (intros c Hc; discriminate).
  destruct (fetchSpeakers_total env forceRefresh clock net w Hinv)
    as [l [w' [E [Hl _]]]].
  exists l, w'. split; [exact E|]. split; [exact Hl|].
  intros Hwin Hrm Hread.
  assert (Hcheck : exists w1, cacheCheck env forceRefresh clock w = (Ok None, w1)
                              /\ slot w1 = None).
  { unfold cacheCheck, getCachedData. rewrite Hwin.
    destruct env as [wd gi si ri]. cbn [removeItemThrows getItemThrows] in *.
    subst ri. destruct forceRefresh.
    - eexists. split; [reflexivity | reflexivity].
    - destruct Hread as [-> | H]; [|discriminate].
      eexists. split; [reflexivity | reflexivity]. }
  destruct Hcheck as [w1 [Hc Hs1]].
  unfold fetchSpeakersFromGoogleSheets, bind in E. rewrite Hc in E.
  unfold tryCatch in E.
  pose proof (liveFetch_cases env clock net w1) as Hlive.
  destruct (liveFetch env clock net w1) as [[l2|e] w2]; cbn in Hlive.
  - injection E as <- <-. destruct Hlive as [_ [Hs | Hs]]; rewrite Hs;
      [rewrite Hs1|]; discriminate.
  - rewrite onFailure_total in E. injection E as _ <-.
    rewrite Hlive, Hs1. discriminate.
Qed.

Lemma expired_entry_is_evicted_before_the_request_witness :
  fetchSpeakersFromGoogleSheets Sample.browser false (mkClock 300000 300001)
    Sample.offline Sample.oldWorld
  = (Ok fallbackSpeakers, mkWorld None 1).
Proof.
  exact (expired_entry_is_evicted_before_the_request Sample.browser
           (mkClock 300000 300001) Sample.offline [Sample.jane] 0 0
           NetworkError eq_refl eq_refl eq_refl
           (fun H => match H with eq_refl => I end) eq_refl).
Defined.

(** ** The display component *)

Lemma getSpeakerImageUrls_length (image : str) :
  length (getSpeakerImageUrls image) = 1 \/
  length (getSpeakerImageUrls image) = 3.
Proof.
  unfold getSpeakerImageUrls.
  destruct (negb (truthy image)); [now left|].
  destruct (includes image (js "drive.google.com")); [|now left].
  destruct (matchLongId image); [now right | now left].
Qed.

Lemma afterErrors_min (urls : list str) (n : nat) :
  SpeakersView.afterErrors urls n = Nat.min n (length urls - 1).
Proof.
  induction n as [|n IH]; [reflexivity|].
  cbn [SpeakersView.afterErrors]. rewrite IH.
  unfold SpeakersView.handleImageError.
  destruct (Nat.ltb_spec (Nat.min n (length urls - 1)) (length urls - 1)); lia.
Qed.

(** X5. The image of a speaker is tried through the addresses that
    [getSpeakerImageUrls] gives, one or three of them: after [n] load
    errors the component shows the address of index [n], or the last one
    once they are used up, and stays there.  It therefore always shows an
    address of that list: for an image that is not on Drive this is the
    image itself however often it fails, and the placeholder is only shown
    when it is the list. *)
Theorem image_errors_walk_the_address_list :
  forall (image : str) (n : nat),
    let urls := getSpeakerImageUrls image in
    (length urls = 1 \/ length urls = 3) /\
    SpeakersView.currentImageUrl urls (SpeakersView.afterErrors urls n)
    = nth (Nat.min n (length urls - 1)) urls [] /\
    In (SpeakersView.currentImageUrl urls (SpeakersView.afterErrors urls n)) urls /\
    (image <> [] -> includes image (js "drive.google.com") = false ->
     SpeakersView.currentImageUrl urls (SpeakersView.afterErrors urls n) = image).
Proof.
  intros image n urls.
  pose proof (getSpeakerImageUrls_length image) as Hlen. fold urls in Hlen.
  assert (Hcur : SpeakersView.currentImageUrl urls (SpeakersView.afterErrors urls n)
                 = nth (Nat.min n (length urls - 1)) urls []).
  { unfold SpeakersView.currentImageUrl. rewrite afterErrors_min.
    destruct (Nat.ltb_spec (Nat.min n (length urls - 1)) (length urls));
      [reflexivity | lia]. }
  split; [exact Hlen|]. split; [exact Hcur|]. split.
  - rewrite Hcur. apply nth_In. lia.
  - intros Hne Hdrive. rewrite Hcur. subst urls.
    unfold getSpeakerImageUrls.
    apply truthy_nonempty in Hne. rewrite Hne, Hdrive. cbn [negb length].
    rewrite Nat.min_0_r. reflexivity.
Qed.

Lemma image_errors_walk_the_address_list_witness :
  SpeakersView.currentImageUrl (getSpeakerImageUrls (js "/speakers/a.jpg"))
    (SpeakersView.afterErrors (getSpeakerImageUrls (js "/speakers/a.jpg")) 4)
  = js "/speakers/a.jpg".
Proof.
  apply (image_errors_walk_the_address_list (js "/speakers/a.jpg") 4).
  - discriminate.
  - vm_compute. reflexivity.
Defined.

(** X6. On a storage that only this module has written, the effect that
    loads the speakers always ends with the grid on screen: loading is
    over, no error is set, so the error message with its Retry button is
    never shown, and there is at least one speaker to show. *)
Theorem loaded_view_shows_the_grid :
  forall (w : World Item) (env : Env) (forceRefresh : bool) (clock : Clock)
         (net : Network) (st : SpeakersView.ViewState),
    Reachable w ->
    let st' := fst (SpeakersView.loadSpeakers env forceRefresh clock net st w) in
    SpeakersView.showsGrid st' = true /\
    SpeakersView.showsError st' = false /\
    SpeakersView.speakers st'
    = match fst (fetchSpeakersFromGoogleSheets env forceRefresh clock net w) with
      | Ok l => l
      | Throw _ => []
      end.
Proof.
  intros w env forceRefresh clock net st Hr st'. subst st'.
  destruct (fetchSpeakers_total env forceRefresh clock net w
              (Reachable_NoEmptyEntry w Hr)) as [l [w' [E [Hl _]]]].
  unfold SpeakersView.loadSpeakers. rewrite E. cbn [fst SpeakersView.error].
  unfold SpeakersView.showsGrid, SpeakersView.showsError.
  cbn [SpeakersView.loading SpeakersView.error SpeakersView.speakers negb andb].
  destruct l as [|sp l]; [contradiction|]. repeat split.
Qed.

Lemma loaded_view_shows_the_grid_witness :
  SpeakersView.showsGrid
    (fst (SpeakersView.loadSpeakers Sample.browser false (mkClock 0 1)
            Sample.offline SpeakersView.initialView Sample.emptyWorld)) = true.
Proof.
  apply (loaded_view_shows_the_grid Sample.emptyWorld Sample.browser false
           (mkClock 0 1) Sample.offline SpeakersView.initialView).
  apply reach_fresh.
Defined.

(** ** Drive addresses *)

Lemma takeId_app (g rest : str) :
  IdChars g -> takeId (g ++ rest) = g ++ takeId rest.
Proof.
  induction 1 as [|c g Hc _ IH]; [reflexivity|].
  cbn [app takeId]. now rewrite Hc, IH.
Qed.

Lemma takeId_all_id (g : str) : IdChars g -> takeId g = g.
Proof.
  intros H. rewrite <- (app_nil_r g) at 1. rewrite (takeId_app g [] H).
  apply app_nil_r.
Qed.

Lemma matchLitId_unfold (lit s : str) :
  matchLitId lit s
  = match (if startsWith s lit
           then match takeId (skipn (length lit) s) with
                | [] => None
                | a :: g => Some (a :: g)
                end
           else None) with
    | Some g => Some g
    | None => match s with
              | [] => None
              | _ :: r => matchLitId lit r
              end
    end.
Proof. destruct s; reflexivity. Qed.

Lemma matchLitId_skip (lit : str) (c : ascii) (s : str) :
  startsWith (c :: s) lit = false ->
  matchLitId lit (c :: s) = matchLitId lit s.
Proof. intros H. rewrite matchLitId_unfold, H. reflexivity. Qed.

Lemma matchLitId_here (lit s g : str) :
  startsWith s lit = true ->
  takeId (skipn (length lit) s) = g -> g <> [] ->
  matchLitId lit s = Some g.
Proof.
  intros H Hg Hne. rewrite matchLitId_unfold, H, Hg.
  destruct g; [contradiction | reflexivity].
Qed.

(** A literal that begins with a slash does not occur in a text without
    slashes. *)
Lemma matchLitId_no_slash (lit s : str) :
  Forall (fun c => Ascii.eqb "/"%char c = false) s ->
  matchLitId ("/"%char :: lit) s = None.
Proof.
  induction 1 as [|c s Hc _ IH]; [reflexivity|].
  rewrite matchLitId_skip; [exact IH|].
  cbn [startsWith]. now rewrite Hc.
Qed.

Lemma idChar_not_slash (c : ascii) :
  isIdChar c = true -> Ascii.eqb "/"%char c = false.
Proof. destruct c as [[] [] [] [] [] [] [] []]; vm_compute; congruence. Qed.

Lemma IdChars_no_slash (g : str) :
  IdChars g -> Forall (fun c => Ascii.eqb "/"%char c = false) g.
Proof.
  intros H. eapply Forall_impl; [|exact H]. exact idChar_not_slash.
Qed.

Lemma no_slash_not_file_pattern (g : str) :
  Forall (fun c => Ascii.eqb "/"%char c = false) g ->
  startsWith ("/"%char :: g) (js "/file/d/") = false.
Proof.
  intros H. cbn [js list_ascii_of_string startsWith]. rewrite Ascii.eqb_refl.
  cbn [andb].
  destruct g as [|c1 [|c2 [|c3 [|c4 [|c5 g]]]]]; cbn [startsWith];
    try (repeat (match goal with |- context [Ascii.eqb ?a ?b] => destruct (Ascii.eqb a b) end; cbn [andb]); reflexivity).
  do 4 apply Forall_inv_tail in H. apply Forall_inv in H.
  rewrite H. now rewrite !andb_false_r.
Qed.

(** The identifier is found again in the uc and the thumbnail address. *)
Lemma driveAddress_file_pattern (format : Format) (g : str) :
  IdChars g -> matchLitId (js "/file/d/") (driveAddress format g) = None.
Proof.
  intros Hg. pose proof (IdChars_no_slash g Hg) as Hs.
  destruct format; expose_literal;
    repeat (rewrite matchLitId_skip by reflexivity).
  - apply matchLitId_no_slash, Hs.
  - apply matchLitId_no_slash, Forall_app.
    split; [exact Hs | repeat constructor].
  - rewrite matchLitId_skip by (apply no_slash_not_file_pattern, Hs).
    apply matchLitId_no_slash, Hs.
Qed.

Lemma driveAddress_id_pattern (format : Format) (g : str) :
  format <> proxy -> IdChars g -> g <> [] ->
  matchLitId (js "id=") (driveAddress format g) = Some g.
Proof.
  intros Hf Hg Hne. destruct format; [| |contradiction]; expose_literal;
    repeat (rewrite matchLitId_skip by reflexivity);
    (apply matchLitId_here; [reflexivity | | exact Hne]);
    cbn [length skipn].
  - apply takeId_all_id, Hg.
  - rewrite (takeId_app g _ Hg). cbn. apply app_nil_r.
Qed.

Lemma driveAddress_is_drive (format : Format) (g : str) :
  format <> proxy ->
  includes (driveAddress format g) (js "drive.google.com") = true.
Proof. intros Hf. destruct format; [reflexivity | reflexivity | contradiction]. Qed.

Lemma idChars_not_drive_host (s : str) :
  IdChars s -> includes s (js "drive.google.com") = false.
Proof.
  assert (Hstart : forall t, IdChars t ->
            startsWith t (js "drive.google.com") = false).
  { intros t Ht.
    destruct t as [|c1 [|c2 [|c3 [|c4 [|c5 [|c6 t]]]]]]; cbn [js list_ascii_of_string startsWith];
      try (repeat (match goal with |- context [Ascii.eqb ?a ?b] => destruct (Ascii.eqb a b) end; cbn [andb]); reflexivity).
    destruct (Ascii.eqb "d" c1), (Ascii.eqb "r" c2), (Ascii.eqb "i" c3),
      (Ascii.eqb "v" c4), (Ascii.eqb "e" c5); cbn [andb]; try reflexivity.
    destruct (Ascii.eqb "." c6) eqn:E6; [|reflexivity].
    apply Ascii.eqb_eq in E6. subst c6.
    do 5 apply Forall_inv_tail in Ht. apply Forall_inv in Ht. discriminate. }
  induction 1 as [|c s Hc Hs IH].
  - reflexivity.
  - cbn [includes]. rewrite (Hstart (c :: s)); [|now constructor].
    exact IH.
Qed.

Lemma proxy_address_is_not_drive (g : str) :
  IdChars g ->
  includes (driveAddress proxy g) (js "drive.google.com") = false.
Proof.
  intros Hg. pose proof (idChars_not_drive_host g Hg) as H.
  expose_literal. cbn [includes].
  repeat match goal with
  | |- context [startsWith (?c :: ?s) ?p] =>
      change (startsWith (c :: s) p) with false; cbn [orb]
  end.
  exact H.
Qed.

Lemma Format_eq_dec_proxy (f : Format) : f = proxy \/ f <> proxy.
Proof. destruct f; [right | right | left]; congruence. Qed.

(** An address is left as it is, or rebuilt from one identifier whatever
    the format. *)
Lemma convertGoogleDriveUrl_cases (url : str) :
  (forall format, convertGoogleDriveUrl url format = url) \/
  exists g, g <> [] /\ IdChars g /\
    forall format, convertGoogleDriveUrl url format = driveAddress format g.
Proof.
  unfold convertGoogleDriveUrl.
  destruct (negb (truthy url) || negb (includes url (js "drive.google.com")));
    [now left|].
  destruct (matchLitId (js "/file/d/") url) as [g1|] eqn:E1.
  - destruct (matchLitId_group _ _ _ E1) as [Hne Hall].
    destruct g1 as [|a g1]; [contradiction|]. cbn [truthy negb].
    right. exists (a :: g1). split; [exact Hne|]. split; [exact Hall|].
    intros format. destruct format; reflexivity.
  - cbn [truthy negb].
    destruct (matchLitId (js "id=") url) as [g2|] eqn:E2.
    + destruct (matchLitId_group _ _ _ E2) as [Hne Hall].
      destruct g2 as [|a g2]; [contradiction|]. cbn [truthy negb].
      right. exists (a :: g2). split; [exact Hne|]. split; [exact Hall|].
      intros format. destruct format; reflexivity.
    + cbn [truthy negb].
      destruct (matchLitId (js "/open?id=") url) as [g3|] eqn:E3.
      * destruct (matchLitId_group _ _ _ E3) as [Hne Hall].
        destruct g3 as [|a g3]; [contradiction|]. cbn [truthy negb].
        right. exists (a :: g3). split; [exact Hne|]. split; [exact Hall|].
        intros format. destruct format; reflexivity.
      * now left.
Qed.

Lemma driveAddress_truthy (format : Format) (g : str) :
  truthy (driveAddress format g) = true.
Proof. destruct format; reflexivity. Qed.

Lemma convertGoogleDriveUrl_driveAddress (f1 f2 : Format) (g : str) :
  IdChars g -> g <> [] ->
  convertGoogleDriveUrl (driveAddress f1 g) f2
  = match f1 with
    | proxy => driveAddress proxy g
    | _ => driveAddress f2 g
    end.
Proof.
  intros Hg Hne.
  destruct (Format_eq_dec_proxy f1) as [-> | Hf].
  - unfold convertGoogleDriveUrl.
    rewrite (proxy_address_is_not_drive g Hg), orb_true_r. reflexivity.
  - unfold convertGoogleDriveUrl.
    rewrite driveAddress_truthy, (driveAddress_is_drive f1 g Hf).
    cbn [negb orb].
    rewrite (driveAddress_file_pattern f1 g Hg). cbn [truthy negb].
    rewrite (driveAddress_id_pattern f1 g Hf Hg Hne).
    apply truthy_nonempty in Hne. cbv beta iota zeta.
    repeat (rewrite Hne; cbn [negb]).
    destruct f1; [| |contradiction]; destruct f2; reflexivity.
Qed.

(** X7. Converting a converted address again, in the same format, changes
    nothing; and after a conversion to the uc or the thumbnail format a
    conversion to any format gives what the direct conversion of the
    original address gives.  (The proxy format leaves Drive, so its result
    is not converted any further.) *)
Theorem convertGoogleDriveUrl_is_idempotent :
  (forall (url : str) (format : Format),
     convertGoogleDriveUrl (convertGoogleDriveUrl url format) format
     = convertGoogleDriveUrl url format) /\
  (forall (url : str) (f1 f2 : Format),
     f1 <> proxy ->
     convertGoogleDriveUrl (convertGoogleDriveUrl url f1) f2
     = convertGoogleDriveUrl url f2) /\
  (forall (url : str) (f2 : Format),
     convertGoogleDriveUrl (convertGoogleDriveUrl url proxy) f2
     = convertGoogleDriveUrl url proxy).
Proof.
  split; [|split].
  - intros url format.
    destruct (convertGoogleDriveUrl_cases url) as [H | [g [Hne [Hg H]]]].
    + now rewrite !H.
    + rewrite !H, (convertGoogleDriveUrl_driveAddress format format g Hg Hne).
      destruct format; reflexivity.
  - intros url f1 f2 Hf.
    destruct (convertGoogleDriveUrl_cases url) as [H | [g [Hne [Hg H]]]].
    + now rewrite !H.
    + rewrite !H, (convertGoogleDriveUrl_driveAddress f1 f2 g Hg Hne).
      destruct f1; [reflexivity | reflexivity | contradiction].
  - intros url f2.
    destruct (convertGoogleDriveUrl_cases url) as [H | [g [Hne [Hg H]]]].
    + now rewrite !H.
    + rewrite !H. exact (convertGoogleDriveUrl_driveAddress proxy f2 g Hg Hne).
Qed.

Lemma convertGoogleDriveUrl_is_idempotent_witness :
  convertGoogleDriveUrl
    (convertGoogleDriveUrl (js "https://drive.google.com/file/d/abc_DEF-1/view")
       thumbnail) uc
  = js "https://drive.google.com/uc?export=view&id=abc_DEF-1".
Proof.
  rewrite (proj1 (proj2 convertGoogleDriveUrl_is_idempotent)
             (js "https://drive.google.com/file/d/abc_DEF-1/view")
             thumbnail uc); [vm_compute; reflexivity | discriminate].
Defined.

Lemma matchLongId_step (c : ascii) (s : str) :
  (25 <=? length (takeId (c :: s))) = false ->
  matchLongId (c :: s) = matchLongId s.
Proof. intros H. cbn [matchLongId]. now rewrite H. Qed.

(** In a text of identifier characters the long run is the text or
    nothing. *)
Lemma matchLongId_id (g : str) :
  IdChars g ->
  matchLongId g = if 25 <=? length g then Some g else None.
Proof.
  induction 1 as [|c g Hc Hg IH]; [reflexivity|].
  assert (Hrun : takeId (c :: g) = c :: g)
    by (apply takeId_all_id; now constructor).
  cbn [matchLongId]. rewrite Hrun.
  destruct (Nat.leb_spec 25 (length (c :: g))) as [H | H]; [reflexivity|].
  rewrite IH. cbn [length] in H.
  destruct (Nat.leb_spec 25 (length g)); [lia | reflexivity].
Qed.

Lemma matchLongId_uc_address (g : str) :
  IdChars g ->
  matchLongId (driveAddress uc g) = if 25 <=? length g then Some g else None.
Proof.
  intros Hg. expose_literal.
  repeat (rewrite matchLongId_step by reflexivity).
  exact (matchLongId_id g Hg).
Qed.

(** X8. The mapper turns a Drive image into the uc address of its file
    identifier, and the display then asks [getSpeakerImageUrls] for the
    addresses to try.  For such an address it gives the thumbnail address,
    the proxy address and the uc address itself, in that order, when the
    identifier has at least 25 characters; for a shorter identifier it
    gives only the placeholder, so the image of the sheet is never
    requested. *)
Theorem image_addresses_of_a_converted_image :
  (forall url : str,
     convertGoogleDriveUrl url uc = url \/
     exists g, g <> [] /\ IdChars g /\
       convertGoogleDriveUrl url uc = driveAddress uc g) /\
  (forall g : str,
     IdChars g ->
     getSpeakerImageUrls (driveAddress uc g)
     = if 25 <=? length g
       then [driveAddress thumbnail g; driveAddress proxy g; driveAddress uc g]
       else [getFallbackSpeakerImage]).
Proof.
  split.
  - intros url.
    destruct (convertGoogleDriveUrl_cases url) as [H | [g [Hne [Hg H]]]];
      [left; apply H | right; exists g; auto].
  - intros g Hg. unfold getSpeakerImageUrls.
    rewrite driveAddress_truthy. cbn [negb].
    rewrite (driveAddress_is_drive uc g) by discriminate.
    rewrite (matchLongId_uc_address g Hg).
    destruct (25 <=? length g); reflexivity.
Qed.

Lemma image_addresses_of_a_converted_image_witness :
  getSpeakerImageUrls (driveAddress uc (js "abc_DEF-1"))
  = [getFallbackSpeakerImage].
Proof.
  rewrite (proj2 image_addresses_of_a_converted_image (js "abc_DEF-1"));
    [reflexivity | repeat constructor].
Defined.

(** ** Further properties of the parsers *)

(** X9. Whatever the text, the speakers parser returns at least one row,
    every row has at least one cell, and every cell is trimmed and free of
    carriage returns and line feeds. *)
Theorem parsed_grid_shape :
  forall csvText : str,
    parseCSVData csvText <> [] /\
    Forall (fun row => row <> [] /\ Forall Normal row) (parseCSVData csvText).
Proof.
  intros csvText. split; [apply parseCSVData_not_nil|].
  unfold parseCSVData. apply Forall_forall. intros row Hin.
  apply in_map_iff in Hin. destruct Hin as [line [<- _]].
  split; [apply parseCSVLine_not_nil | apply parseCSVLine_Normal].
Qed.

(** ** The sold-out sheet, read without the scanner *)

Lemma findIndex_FirstAt {A} (p : A -> bool) (l : list A) (idx : nat) :
  SoldOut.findIndex p l = Some idx <-> FirstAt p l idx.
Proof.
  revert idx. induction l as [|a r IH]; intros idx.
  - cbn [SoldOut.findIndex]. split; [discriminate|].
    intros [[x [Hx _]] _]. destruct idx; discriminate.
  - cbn [SoldOut.findIndex]. destruct (p a) eqn:Hp.
    + split.
      * intros [= <-]. split.
        -- exists a. now split.
        -- intros j x Hj. lia.
      * intros [[x [Hx Hpx]] Hmin]. destruct idx as [|idx]; [reflexivity|].
        specialize (Hmin 0 a (Nat.lt_0_succ _) eq_refl). congruence.
    + destruct (SoldOut.findIndex p r) as [i|] eqn:Hf.
      * split.
        -- intros [= <-]. destruct (proj1 (IH i) eq_refl) as [[x [Hx Hpx]] Hmin].
           split.
           ++ exists x. now split.
           ++ intros [|j] y Hj Hy.
              ** cbn in Hy. injection Hy as <-. exact Hp.
              ** apply (Hmin j y); [lia | exact Hy].
        -- intros [[x [Hx Hpx]] Hmin]. destruct idx as [|idx].
           ++ cbn in Hx. injection Hx as <-. congruence.
           ++ f_equal. assert (Hi : Some i = Some idx); [|congruence].
              apply IH. split.
              ** exists x. now split.
              ** intros j y Hj Hy. apply (Hmin (S j) y); [lia | exact Hy].
      * split; [discriminate|].
        intros [[x [Hx Hpx]] Hmin]. destruct idx as [|idx].
        -- cbn in Hx. injection Hx as <-. congruence.
        -- assert (Hi : None = Some idx); [|discriminate].
           apply IH. split.
           ++ exists x. now split.
           ++ intros j y Hj Hy. apply (Hmin (S j) y); [lia | exact Hy].
Qed.

Lemma findIndex_ext {A} (p p' : A -> bool) (l : list A) :
  (forall a, p a = p' a) -> SoldOut.findIndex p l = SoldOut.findIndex p' l.
Proof.
  intros H. induction l as [|a r IH]; [reflexivity|].
  cbn [SoldOut.findIndex]. now rewrite H, IH.
Qed.

Lemma lowerChar_ws (c : ascii) : isWhiteSpace (lowerChar c) = isWhiteSpace c.
Proof. destruct c as [[] [] [] [] [] [] [] []]; vm_compute; reflexivity. Qed.

Lemma trimStart_map (f : ascii -> ascii) (s : str) :
  (forall c, isWhiteSpace (f c) = isWhiteSpace c) ->
  trimStart (map f s) = map f (trimStart s).
Proof.
  intros Hf. induction s as [|c r IH]; [reflexivity|].
  cbn [map trimStart]. rewrite Hf. destruct (isWhiteSpace c); [exact IH | reflexivity].
Qed.

Lemma trim_map (f : ascii -> ascii) (s : str) :
  (forall c, isWhiteSpace (f c) = isWhiteSpace c) ->
  trim (map f s) = map f (trim s).
Proof.
  intros Hf. unfold trim, trimEnd.
  rewrite (trimStart_map f s Hf), <- map_rev, (trimStart_map f _ Hf), map_rev.
  reflexivity.
Qed.

Lemma lowerChar_letter (c y : ascii) :
  In y (js "sold out") -> (lowerChar c = y <-> foldCase c = foldCase y).
Proof.
  intros Hy. vm_compute in Hy.
  repeat (destruct Hy as [<- | Hy];
          [destruct c as [[] [] [] [] [] [] [] []]; vm_compute;
           split; intros H; first [reflexivity | discriminate H]|]).
  contradiction.
Qed.

Lemma toLowerCase_letters (t s : str) :
  incl t (js "sold out") ->
  toLowerCase s = t <-> map foldCase s = map foldCase t.
Proof.
  revert t. induction s as [|c s IH]; intros t Ht.
  - destruct t; simpl; split; congruence.
  - destruct t as [|y t]; [simpl; split; discriminate|].
    assert (Hy : In y (js "sold out")) by (apply Ht; now left).
    assert (Ht' : incl t (js "sold out")) by (intros x Hx; apply Ht; now right).
    unfold toLowerCase in *. cbn [map]. split; intros H; injection H as Hc Hr.
    + f_equal; [now apply lowerChar_letter | now apply IH].
    + f_equal; [now apply lowerChar_letter | now apply IH].
Qed.

(** The header test of the code is the comparison up to case. *)
Lemma isSoldOutHeader_namesSoldOut (header : str) :
  SoldOut.isSoldOutHeader header = namesSoldOut header.
Proof.
  unfold SoldOut.isSoldOutHeader, namesSoldOut, ciEqual, toLowerCase.
  rewrite (trim_map lowerChar header lowerChar_ws).
  fold (toLowerCase (trim header)).
  destruct (streq (toLowerCase (trim header)) (js "sold out")) eqn:E1;
    destruct (streq (map foldCase (trim header)) (map foldCase (js "sold out")))
      eqn:E2; try reflexivity.
  - apply streq_true in E1.
    apply (toLowerCase_letters (js "sold out") _ (incl_refl _)) in E1.
    apply streq_true in E1. congruence.
  - apply streq_true in E2.
    apply (toLowerCase_letters (js "sold out") _ (incl_refl _)) in E2.
    apply streq_true in E2. congruence.
Qed.

Lemma soldOut_column (headers : list str) (idx : nat) :
  SoldOut.findIndex SoldOut.isSoldOutHeader headers = Some idx
  <-> FirstAt namesSoldOut headers idx.
Proof.
  rewrite (findIndex_ext _ namesSoldOut headers isSoldOutHeader_namesSoldOut).
  apply findIndex_FirstAt.
Qed.

(** X12. [fetchSoldOutStatus] never throws and does nothing but its one
    request, and its flag is true exactly
    when the response is ok, its text has at least two non-blank physical
    lines, and the second of them has, at the position of the first header
    cell of the first line that reads sold out (in any case, white space
    around it ignored), a cell that reads TRUE in any case.  A rejected
    request, a response that is not ok, a text that cannot be read, fewer
    than two lines, no such header, no cell at that position and every other
    cell value give false. *)
Theorem sold_out_flag_reads_second_physical_line :
  forall (o : FetchOutcome) (w : World unit),
    exists st : SoldOut.SoldOutStatus,
      fst (SoldOut.fetchSoldOutStatus o w) = Ok st /\
      snd (SoldOut.fetchSoldOutStatus o w) = snd (fetch o w) /\
      (SoldOut.isSoldOut st = true <->
       exists (r : Response) (csvText header dataLine : str)
              (rest : list str) (idx : nat) (cell : str),
         o = Resolves r /\ ok r = true /\ text r = Ok csvText /\
         nonBlankLines csvText = header :: dataLine :: rest /\
         FirstAt namesSoldOut (SoldOut.parseCSVLine header) idx /\
         nth_error (SoldOut.parseCSVLine dataLine) idx = Some cell /\
         ciEqual (trim cell) (js "TRUE") = true).
Proof.
  intros o w.
  destruct (sold_out_flag_iff_cell_is_TRUE o w) as [st [Hst Hiff]].
  exists st. split; [exact Hst|]. split.
  { unfold SoldOut.fetchSoldOutStatus, SoldOut.tryFetch. run_monad.
    destruct o as [e|r]; [reflexivity|].
    destruct (ok r); [|reflexivity].
    destruct (text r); [|reflexivity].
    match goal with |- context [if ?b then _ else _] => destruct b end;
      [reflexivity|].
    match goal with |- context [SoldOut.findIndex ?p ?l] =>
      destruct (SoldOut.findIndex p l) end; reflexivity. }
  rewrite Hiff. split.
  - intros (r & csv & h & d & rest & idx & cell & H1 & H2 & H3 & H4 & H5 & H6).
    exists r, csv, h, d, rest, idx, cell.
    repeat (split; [assumption|]). split; [now apply soldOut_column | exact H6].
  - intros (r & csv & h & d & rest & idx & cell & H1 & H2 & H3 & H4 & H5 & H6).
    exists r, csv, h, d, rest, idx, cell.
    repeat (split; [assumption|]). split; [now apply soldOut_column | exact H6].
Qed.

(** ** Lines without quotes *)

Lemma split_cons_other (sep c : ascii) (s : str) :
  Ascii.eqb c sep = false ->
  split sep (c :: s) = (c :: hd [] (split sep s)) :: tl (split sep s).
Proof.
  intros H. cbn [split]. rewrite H.
  destruct (split sep s) as [|h t] eqn:E; [|reflexivity].
  destruct (split_nonempty sep s E).
Qed.

Lemma removelast_cons {A} (a : A) (l : list A) :
  l <> [] -> removelast (a :: l) = a :: removelast l.
Proof. destruct l; [contradiction | reflexivity]. Qed.

Lemma last_cons {A} (a d : A) (l : list A) :
  l <> [] -> last (a :: l) d = last l d.
Proof. destruct l; [contradiction | reflexivity]. Qed.

(** The scanner on a line without quotes and line feeds: [current] is put
    before the first piece, every piece but the last is pushed trimmed, and
    the last piece is what is left in [current]. *)
Lemma scanLine_plain (line : str) :
  noDQ line = true -> noLF line = true ->
  forall (result : list str) (current : str),
    Speakers.scanLine line result current false
    = (result
       ++ map trim (removelast ((current ++ hd [] (commaPieces line))
                                :: tl (commaPieces line))),
       last ((current ++ hd [] (commaPieces line)) :: tl (commaPieces line)) []).
Proof.
  unfold commaPieces.
  induction line as [|c rest IH]; intros Hq Hl result current.
  - cbn. now rewrite !app_nil_r.
  - cbn [noDQ noLF forallb] in Hq, Hl.
    apply andb_true_iff in Hq. destruct Hq as [Hc Hq].
    apply andb_true_iff in Hl. destruct Hl as [Hcl Hl].
    apply negb_true_iff in Hc, Hcl.
    specialize (IH Hq Hl).
    assert (Hne : split COMMA (dropCR rest) <> []) by apply split_nonempty.
    cbn [Speakers.scanLine]. rewrite Hc. cbn [negb andb].
    rewrite !andb_true_r, Hcl.
    destruct (Ascii.eqb c COMMA) eqn:Ecomma.
    + apply Ascii.eqb_eq in Ecomma. subst c.
      rewrite IH. cbn [dropCR filter].
      change (Ascii.eqb COMMA CR) with false. cbn [negb split].
      change (Ascii.eqb COMMA COMMA) with true. cbn [hd tl app].
      fold (dropCR rest). rewrite app_nil_r.
      destruct (split COMMA (dropCR rest)) as [|h t] eqn:E; [now destruct Hne|].
      cbn [hd tl app].
      change (removelast (current :: h :: t)) with (current :: removelast (h :: t)).
      change (last (current :: h :: t) []) with (last (h :: t) []).
      cbn [map]. rewrite <- app_assoc. reflexivity.
    + destruct (Ascii.eqb c CR) eqn:Ecr.
      * rewrite IH. cbn [dropCR filter]. rewrite Ecr. reflexivity.
      * rewrite IH. cbn [dropCR filter]. rewrite Ecr. cbn [negb].
        fold (dropCR rest).
        rewrite (split_cons_other COMMA c _ Ecomma). cbn [hd tl].
        rewrite <- app_assoc. reflexivity.
Qed.

(** A character that is no quote, no carriage return and no line feed. *)
Lemma forallb_impl (P Q : ascii -> bool) (s : str) :
  (forall c, P c = true -> Q c = true) ->
  forallb P s = true -> forallb Q s = true.
Proof.
  intros H. induction s as [|c r IH]; [reflexivity|]. cbn [forallb].
  intros Hs. apply andb_true_iff in Hs. destruct Hs as [Hc Hr].
  now rewrite (H c Hc), (IH Hr).
Qed.

Lemma split_forallb (P : ascii -> bool) (sep : ascii) (s : str) :
  forallb P s = true ->
  Forall (fun p => forallb P p = true) (split sep s).
Proof.
  induction s as [|c r IH]; intros H.
  - repeat constructor.
  - cbn [forallb] in H. apply andb_true_iff in H. destruct H as [Hc Hr].
    specialize (IH Hr). cbn [split]. destruct (Ascii.eqb c sep).
    + constructor; [reflexivity | exact IH].
    + destruct (split sep r) as [|h t]; [repeat constructor; cbn; now rewrite Hc|].
      inversion IH as [|? ? Hh Ht]; subst. constructor; [|exact Ht].
      cbn [forallb]. now rewrite Hc, Hh.
Qed.

Lemma split_pieces_no_sep (sep : ascii) (s : str) :
  Forall (fun p => forallb (fun c => negb (Ascii.eqb c sep)) p = true)
         (split sep s).
Proof.
  induction s as [|c r IH]; [repeat constructor|].
  cbn [split]. destruct (Ascii.eqb c sep) eqn:E.
  - constructor; [reflexivity | exact IH].
  - destruct (split sep r) as [|h t]; [repeat constructor; cbn; now rewrite E|].
    inversion IH as [|? ? Hh Ht]; subst. constructor; [|exact Ht].
    cbn [forallb]. now rewrite E, Hh.
Qed.

Lemma dropCR_plain (line : str) :
  noDQ line = true -> noLF line = true ->
  forallb (fun c => negb (Ascii.eqb c DQ)
                    && (negb (Ascii.eqb c CR) && negb (Ascii.eqb c LF)))
          (dropCR line) = true.
Proof.
  unfold noDQ, noLF, dropCR. induction line as [|c r IH]; [reflexivity|].
  cbn [forallb filter]. intros Hq Hl.
  apply andb_true_iff in Hq. destruct Hq as [Hc Hq].
  apply andb_true_iff in Hl. destruct Hl as [Hcl Hl].
  destruct (negb (Ascii.eqb c CR)) eqn:Ecr; [|exact (IH Hq Hl)].
  cbn [forallb]. now rewrite Hc, Ecr, Hcl, (IH Hq Hl).
Qed.

(** The clean-up of the speakers parser leaves the trimmed piece of a
    plain line as it is. *)
Lemma cleanField_plain (p : str) :
  forallb (fun c => negb (Ascii.eqb c DQ)
                    && (negb (Ascii.eqb c CR) && negb (Ascii.eqb c LF))) p = true ->
  cleanField (trim p) = trim p.
Proof.
  intros H. apply trim_forallb in H.
  apply cleanField_fixed.
  - split; [apply trim_Trimmed|]. unfold noBreaks.
    revert H. apply forallb_impl. intros c Hc.
    apply andb_true_iff in Hc. exact (proj2 Hc).
  - unfold quoteWrapped. destruct (trim p) as [|c r]; [reflexivity|].
    cbn [forallb] in H. apply andb_true_iff in H. destruct H as [Hc _].
    apply andb_true_iff in Hc. destruct Hc as [Hc _].
    apply negb_true_iff in Hc. cbn [startsWith].
    rewrite Ascii.eqb_sym, Hc. reflexivity.
Qed.

Lemma commaPieces_cons (line : str) :
  commaPieces line = hd [] (commaPieces line) :: tl (commaPieces line).
Proof.
  unfold commaPieces. destruct (split COMMA (dropCR line)) eqn:E; [|reflexivity].
  destruct (split_nonempty _ _ E).
Qed.

Lemma speakers_cells_of_plain_line (line : str) :
  noDQ line = true -> noLF line = true ->
  Speakers.parseCSVLine line = map trim (commaPieces line).
Proof.
  intros Hq Hl. unfold Speakers.parseCSVLine.
  rewrite (scanLine_plain line Hq Hl [] []). cbv beta iota zeta.
  change ([] ++ hd [] (commaPieces line)) with (hd [] (commaPieces line)).
  rewrite <- commaPieces_cons.
  assert (Hne : commaPieces line <> []) by apply split_nonempty.
  change ([] ++ map trim (removelast (commaPieces line)))
    with (map trim (removelast (commaPieces line))).
  change [trim (last (commaPieces line) [])]
    with (map trim [last (commaPieces line) []]).
  assert (Hp : removelast (commaPieces line) ++ [last (commaPieces line) []]
               = commaPieces line)
    by (symmetry; now apply app_removelast_last).
  rewrite <- map_app, Hp, map_map. apply map_ext_in. intros p Hin.
  apply cleanField_plain.
  pose proof (split_forallb _ COMMA _ (dropCR_plain line Hq Hl)) as Hall.
  rewrite Forall_forall in Hall. exact (Hall p Hin).
Qed.

Lemma soldOut_cells_of_plain_line (line : str) :
  noDQ line = true -> noLF line = true ->
  SoldOut.parseCSVLine line = plainCells line.
Proof.
  intros Hq Hl. unfold SoldOut.parseCSVLine, plainCells.
  rewrite scanLine_same, (scanLine_plain line Hq Hl [] []). cbv beta iota zeta.
  change ([] ++ hd [] (commaPieces line)) with (hd [] (commaPieces line)).
  rewrite <- commaPieces_cons.
  assert (Hne : commaPieces line <> []) by apply split_nonempty.
  change ([] ++ map trim (removelast (commaPieces line)))
    with (map trim (removelast (commaPieces line))).
  unfold str.
  match goal with |- context [truthy ?x] => destruct (truthy x) end;
    [|reflexivity].
  rewrite (app_removelast_last [] Hne) at 3.
  now rewrite map_app.
Qed.

(** X13. On a line without double quotes (and without line feeds) neither
    parser needs its scanner.  The speakers parser gives the pieces between
    the commas, trimmed, with carriage returns dropped; the sold-out parser
    gives the same cells, but leaves the last one out when nothing at all
    follows the last comma. *)
Theorem cells_of_a_plain_line :
  forall line : str,
    noDQ line = true -> noLF line = true ->
    Speakers.parseCSVLine line = map trim (commaPieces line) /\
    SoldOut.parseCSVLine line = plainCells line /\
    (SoldOut.parseCSVLine line = Speakers.parseCSVLine line \/
     SoldOut.parseCSVLine line ++ [[]] = Speakers.parseCSVLine line).
Proof.
  intros line Hq Hl.
  rewrite (speakers_cells_of_plain_line line Hq Hl),
    (soldOut_cells_of_plain_line line Hq Hl).
  split; [reflexivity|]. split; [reflexivity|].
  unfold plainCells.
  assert (Hne : commaPieces line <> []) by apply split_nonempty.
  match goal with |- context [truthy ?x] =>
    destruct x as [|c r] eqn:E end; cbn [truthy]; [right | now left].
  rewrite (app_removelast_last [] Hne) at 2. rewrite map_app.
  cbn [map]. do 2 f_equal.
  transitivity (trim (@nil ascii)); [reflexivity | f_equal; symmetry; exact E].
Qed.

Lemma cells_of_a_plain_line_witness :
  Speakers.parseCSVLine (js "Elevate , TRUE,")
  = [js "Elevate"; js "TRUE"; []] /\
  SoldOut.parseCSVLine (js "Elevate , TRUE,") = [js "Elevate"; js "TRUE"].
Proof.
  destruct (cells_of_a_plain_line (js "Elevate , TRUE,") eq_refl eq_refl)
    as [Hs [Ho _]].
  rewrite Hs, Ho. split; reflexivity.
Defined.

(** The lines of a text without quotes have no quotes and no line feeds. *)
Lemma nonBlankLines_plain (csvText line : str) :
  noDQ csvText = true ->
  In line (nonBlankLines csvText) ->
  noDQ line = true /\ noLF line = true.
Proof.
  intros Hq Hin. unfold nonBlankLines in Hin.
  apply filter_In in Hin. destruct Hin as [Hin _]. split.
  - pose proof (split_forallb _ LF csvText Hq) as Hall.
    rewrite Forall_forall in Hall. exact (Hall line Hin).
  - pose proof (split_pieces_no_sep LF csvText) as Hall.
    rewrite Forall_forall in Hall. exact (Hall line Hin).
Qed.

Lemma plainCells_trimmed (line : str) (idx : nat) (cell : str) :
  nth_error (plainCells line) idx = Some cell -> trim cell = cell.
Proof.
  unfold plainCells. cbv zeta. rewrite nth_error_map.
  match goal with |- context [nth_error ?l idx] =>
    destruct (nth_error l idx) as [p|] end; [|discriminate].
  cbn [option_map]. intros [= <-]. apply trim_idempotent.
Qed.

(** X14. For a sheet without double quotes the answer of
    [fetchSoldOutStatus] can be read off without its parser: it is true
    exactly when the text has two non-blank lines and, cutting both at their
    commas, the cell of the second line under the first header that reads
    sold out reads TRUE, in any case of the letters. *)
Theorem sold_out_flag_of_plain_sheet :
  forall (r : Response) (csvText : str) (w : World unit),
    ok r = true -> text r = Ok csvText -> noDQ csvText = true ->
    exists st : SoldOut.SoldOutStatus,
      fst (SoldOut.fetchSoldOutStatus (Resolves r) w) = Ok st /\
      (SoldOut.isSoldOut st = true <->
       exists (header dataLine : str) (rest : list str) (idx : nat) (cell : str),
         nonBlankLines csvText = header :: dataLine :: rest /\
         FirstAt namesSoldOut (plainCells header) idx /\
         nth_error (plainCells dataLine) idx = Some cell /\
         ciEqual cell (js "TRUE") = true).
Proof.
  intros r csvText w Hok Ht Hq.
  destruct (sold_out_flag_iff_cell_is_TRUE (Resolves r) w) as [st [Hst Hiff]].
  exists st. split; [exact Hst|]. rewrite Hiff. clear Hst Hiff.
  assert (Hlines : forall header dataLine rest,
            nonBlankLines csvText = header :: dataLine :: rest ->
            SoldOut.parseCSVLine header = plainCells header /\
            SoldOut.parseCSVLine dataLine = plainCells dataLine).
  { intros header dataLine rest Hl. split.
    - destruct (nonBlankLines_plain csvText header Hq) as [H1 H2];
        [rewrite Hl; now left|].
      now apply soldOut_cells_of_plain_line.
    - destruct (nonBlankLines_plain csvText dataLine Hq) as [H1 H2];
        [rewrite Hl; right; now left|].
      now apply soldOut_cells_of_plain_line. }
  split.
  - intros (r' & csv & h & d & rest & idx & cell & H1 & _ & H3 & H4 & H5 & H6 & H7).
    injection H1 as <-. rewrite Ht in H3. injection H3 as <-.
    destruct (Hlines h d rest H4) as [Hh Hd]. rewrite Hh in H5. rewrite Hd in H6.
    exists h, d, rest, idx, cell. split; [exact H4|].
    split; [now apply soldOut_column|]. split; [exact H6|].
    now rewrite <- (plainCells_trimmed d idx cell H6).
  - intros (h & d & rest & idx & cell & H4 & H5 & H6 & H7).
    destruct (Hlines h d rest H4) as [Hh Hd].
    exists r, csvText, h, d, rest, idx, cell.
    split; [reflexivity|]. split; [exact Hok|]. split; [exact Ht|].
    split; [exact H4|]. rewrite Hh, Hd.
    split; [now apply soldOut_column|]. split; [exact H6|].
    now rewrite (plainCells_trimmed d idx cell H6).
Qed.

Lemma sold_out_flag_of_plain_sheet_witness :
  exists st : SoldOut.SoldOutStatus,
    fst (SoldOut.fetchSoldOutStatus (Sample.answering Sample.soldOutSheet)
           (mkWorld None 0)) = Ok st /\
    (SoldOut.isSoldOut st = true <->
     exists (header dataLine : str) (rest : list str) (idx : nat) (cell : str),
       nonBlankLines Sample.soldOutSheet = header :: dataLine :: rest /\
       FirstAt namesSoldOut (plainCells header) idx /\
       nth_error (plainCells dataLine) idx = Some cell /\
       ciEqual cell (js "TRUE") = true).
Proof.
  apply (sold_out_flag_of_plain_sheet
           (mkResponse true 200 (Ok Sample.soldOutSheet)) Sample.soldOutSheet
           (mkWorld None 0)); reflexivity.
Defined.

(** ** The pre-scan keeps the whole text *)

Lemma joinWith_cons (sep : ascii) (p : str) (rest : list str) :
  rest <> [] -> joinWith sep (p :: rest) = p ++ sep :: joinWith sep rest.
Proof. destruct rest; [contradiction | reflexivity]. Qed.

Lemma joinWith_split (sep : ascii) (s : str) : joinWith sep (split sep s) = s.
Proof.
  induction s as [|c r IH]; [reflexivity|].
  cbn [split]. destruct (Ascii.eqb c sep) eqn:E.
  - apply Ascii.eqb_eq in E. subst c.
    rewrite joinWith_cons by apply split_nonempty. now rewrite IH.
  - destruct (split sep r) as [|h t] eqn:Es; [destruct (split_nonempty _ _ Es)|].
    destruct t as [|h2 t].
    + cbn [joinWith] in *. now rewrite IH.
    + rewrite joinWith_cons by discriminate.
      rewrite joinWith_cons in IH by discriminate.
      cbn [app]. now rewrite IH.
Qed.

(** Two pieces joined by the separator count as one piece or as two. *)
Lemma joinWith_merge (sep : ascii) (x y : str) (rest : list str) :
  joinWith sep ((x ++ sep :: y) :: rest) = joinWith sep (x :: y :: rest).
Proof.
  destruct rest as [|b rest].
  - reflexivity.
  - rewrite !joinWith_cons by discriminate.
    now rewrite <- app_assoc.
Qed.

Lemma joinWith_app_congr (sep : ascii) (pre l l' : list str) :
  l <> [] -> l' <> [] ->
  joinWith sep l = joinWith sep l' ->
  joinWith sep (pre ++ l) = joinWith sep (pre ++ l').
Proof.
  intros Hl Hl' H. induction pre as [|a pre IH]; [exact H|].
  cbn [app]. rewrite !joinWith_cons.
  - now rewrite IH.
  - destruct pre; [exact Hl' | discriminate].
  - destruct pre; [exact Hl | discriminate].
Qed.

(** What the loop has read so far: the finished lines and the open buffer. *)
Lemma accumulate_flush (lines : list str) (cur line : str) (rest : list str) :
  joinWith LF (fst (accumulate (lines, cur) line)
               ++ (if truthy (snd (accumulate (lines, cur) line))
                   then [snd (accumulate (lines, cur) line)] else [])
               ++ rest)
  = joinWith LF (lines ++ (if truthy cur then [cur] else []) ++ line :: rest).
Proof.
  unfold accumulate. cbv beta iota zeta.
  destruct cur as [|c r]; cbn [truthy app].
  - destruct (Nat.even (quoteCount line)) eqn:E; cbn [fst snd truthy app].
    + now rewrite <- app_assoc.
    + destruct line as [|c r]; [discriminate E | reflexivity].
  - match goal with |- context [Nat.even ?n] => destruct (Nat.even n) end;
      cbn [fst snd truthy app]; [rewrite <- app_assoc; cbn [app]|];
      (apply joinWith_app_congr; [discriminate | discriminate |]);
      exact (joinWith_merge LF (c :: r) line rest).
Qed.

Lemma fold_accumulate_flush (rawLines : list str) (st : list str * str) :
  joinWith LF (fst (fold_left accumulate rawLines st)
               ++ (if truthy (snd (fold_left accumulate rawLines st))
                   then [snd (fold_left accumulate rawLines st)] else []))
  = joinWith LF (fst st ++ (if truthy (snd st) then [snd st] else [])
                 ++ rawLines).
Proof.
  revert st. induction rawLines as [|l ls IH]; intros st.
  - cbn [fold_left]. now rewrite app_nil_r.
  - cbn [fold_left]. rewrite IH. destruct st as [lines cur].
    exact (accumulate_flush lines cur l ls).
Qed.

(** The open buffer at the end of the loop is empty or holds a quote, so
    the test on its trimmed text is the test on the buffer. *)
Lemma final_buffer (csvText : str) :
  truthy (trim (snd (fold_left accumulate (split LF csvText) ([], []))))
  = truthy (snd (fold_left accumulate (split LF csvText) ([], []))).
Proof.
  destruct (Nat.even (quoteCount
              (snd (fold_left accumulate (split LF csvText) ([], [])))))
    eqn:E.
  - rewrite (fold_accumulate_buffer (split LF csvText) ([], []) eq_refl E).
    reflexivity.
  - rewrite (open_buffer_not_blank _ E).
    destruct (snd (fold_left accumulate (split LF csvText) ([], [])));
      [discriminate E | reflexivity].
Qed.

Lemma logicalLines_flush (csvText : str) :
  logicalLines csvText
  = fst (fold_left accumulate (split LF csvText) ([], []))
    ++ (if truthy (snd (fold_left accumulate (split LF csvText) ([], [])))
        then [snd (fold_left accumulate (split LF csvText) ([], []))]
        else []).
Proof.
  unfold logicalLines. rewrite <- (final_buffer csvText).
  destruct (fold_left accumulate (split LF csvText) ([], [])) as [lines cur].
  cbn [fst snd]. destruct (truthy (trim cur)); [reflexivity|].
  now rewrite app_nil_r.
Qed.

Lemma accumulate_balanced_lines (st : list str * str) (line : str) :
  Forall (fun l => Nat.even (quoteCount l) = true) (fst st) ->
  Forall (fun l => Nat.even (quoteCount l) = true) (fst (accumulate st line)).
Proof.
  destruct st as [lines cur]. unfold accumulate. cbn [fst]. intros H.
  destruct (Nat.even (quoteCount (cur ++ _ ++ line))) eqn:E; cbn [fst];
    [|exact H].
  apply Forall_app. split; [exact H|]. constructor; [exact E | constructor].
Qed.

Lemma fold_accumulate_balanced_lines (rawLines : list str)
    (st : list str * str) :
  Forall (fun l => Nat.even (quoteCount l) = true) (fst st) ->
  Forall (fun l => Nat.even (quoteCount l) = true)
         (fst (fold_left accumulate rawLines st)).
Proof.
  revert st. induction rawLines as [|l ls IH]; intros st H; [exact H|].
  cbn [fold_left]. apply IH. now apply accumulate_balanced_lines.
Qed.

(** X15. The pre-scan of [parseCSVData] loses nothing and cuts only
    outside quotes: the logical lines, joined again by line feeds, are the
    text; every logical line but the last has an even number of double
    quotes; and so has the last when the text has. *)
Theorem logical_lines_partition_the_text :
  forall csvText : str,
    joinWith LF (logicalLines csvText) = csvText /\
    Forall (fun l => Nat.even (quoteCount l) = true)
           (removelast (logicalLines csvText)) /\
    (Nat.even (quoteCount csvText) = true ->
     Forall (fun l => Nat.even (quoteCount l) = true) (logicalLines csvText)).
Proof.
  intros csvText.
  pose proof (fold_accumulate_balanced_lines (split LF csvText) ([], [])
                (Forall_nil _)) as Hlines.
  rewrite (logicalLines_flush csvText).
  split; [|split].
  - rewrite fold_accumulate_flush. cbn [fst snd truthy app].
    apply joinWith_split.
  - destruct (truthy (snd (fold_left accumulate (split LF csvText) ([], [])))).
    + rewrite removelast_last. exact Hlines.
    + rewrite app_nil_r.
      apply Forall_forall. intros l Hin. rewrite Forall_forall in Hlines.
      apply Hlines.
      destruct (fst (fold_left accumulate (split LF csvText) ([], [])))
        as [|a b] eqn:E using rev_ind; [destruct Hin|].
      rewrite removelast_last in Hin. apply in_or_app. now left.
  - intros Hev.
    assert (Hbuf : snd (fold_left accumulate (split LF csvText) ([], [])) = []).
    { apply fold_accumulate_buffer; [reflexivity|].
      rewrite fold_accumulate_parity. cbn [snd].
      change (quoteCount []) with 0. rewrite Nat.add_0_l, <- quoteCount_split.
      exact Hev. }
    rewrite Hbuf. cbn [truthy]. rewrite app_nil_r. exact Hlines.
Qed.

(** ** The time of the stored entry *)

(** X16. [getSpeakerCacheTimestamp] never throws and leaves the storage as
    it is, also when the stored text is not JSON (which [getCachedData]
    would remove).  It answers with the time of the stored entry whatever
    the age of the entry, and with null in every other case; right after
    [setCachedData] has written, it answers with the time of that write. *)
Theorem cache_timestamp_is_read_only :
  forall (toLocaleTimeString : Z -> str) (env : Env) (w : World Item),
    exists v : option str,
      getSpeakerCacheTimestamp toLocaleTimeString env w = (Ok v, w) /\
      (v = None \/
       exists c, slot w = Some (Json c) /\
                 v = Some (toLocaleTimeString (timestamp c))) /\
      (windowDefined env = true -> getItemThrows env = false ->
       forall c, slot w = Some (Json c) ->
                 v = Some (toLocaleTimeString (timestamp c))) /\
      (windowDefined env = true -> getItemThrows env = false ->
       setItemThrows env = false ->
       forall (now : Z) (d : list Speaker),
         fst (getSpeakerCacheTimestamp toLocaleTimeString env
                (snd (setCachedData env now d w)))
         = Ok (Some (toLocaleTimeString now))).
Proof.
  intros tl [win gThrows sThrows rThrows] [s f].
  unfold getSpeakerCacheTimestamp, setCachedData. run_monad.
  destruct win; cbn.
  2:{ exists None. repeat split; try discriminate. now left. }
  destruct gThrows; cbn.
  { exists None. repeat split; try discriminate. now left. }
  destruct s as [[c|]|]; cbn.
  - exists (Some (tl (timestamp c))). split; [reflexivity|]. split.
    + right. exists c. now split.
    + split.
      * intros _ _ c' [= <-]. reflexivity.
      * intros _ _ ->. reflexivity.
  - exists None. split; [reflexivity|]. split; [now left|]. split.
    + intros _ _ c' H. discriminate H.
    + intros _ _ ->. reflexivity.
  - exists None. split; [reflexivity|]. split; [now left|]. split.
    + intros _ _ c' H. discriminate H.
    + intros _ _ ->. reflexivity.
Qed.

(** ** Rows and columns *)

(** X17. The mapper reads the first five cells of a row and nothing else:
    cells after the fifth are ignored, and a row of four cells is read as
    the row with an empty fifth cell, which gives a record without a
    LinkedIn address. *)
Theorem mapRow_reads_five_cells :
  forall row : list str,
    mapRow row = mapRow (firstn 5 row) /\
    (length row = 4 ->
     mapRow row = mapRow (row ++ [[]]) /\
     forall sp, mapRow row = Some sp -> linkedin sp = None).
Proof.
  intros row. split.
  - destruct row as [|a [|b [|c [|d [|e rest]]]]]; reflexivity.
  - intros Hlen.
    destruct row as [|a [|b [|c [|d [|e rest]]]]]; try discriminate Hlen.
    split; [reflexivity|]. intros sp. unfold mapRow, padRow.
    cbn [length Nat.ltb Nat.leb Nat.sub repeat app nth].
    match goal with |- context [if ?b then None else _] => destruct b end;
      [discriminate|].
    intros [= <-]. reflexivity.
Qed.

Lemma mapRow_reads_five_cells_witness :
  mapRow [js "Jane"; js "CEO"; js "Acme"; js "img.png"]
  = mapRow ([js "Jane"; js "CEO"; js "Acme"; js "img.png"] ++ [[]]) /\
  forall sp,
    mapRow [js "Jane"; js "CEO"; js "Acme"; js "img.png"] = Some sp ->
    linkedin sp = None.
Proof.
  exact (proj2 (mapRow_reads_five_cells
                  [js "Jane"; js "CEO"; js "Acme"; js "img.png"]) eq_refl).
Defined.
